(** * SpaceX launch analytics dashboard: the data store and its two views

    A shallow embedding of [spacex_dash_app.py].  The script loads one CSV
    file into a pandas data frame, drops the rows that miss a key column and
    answers two Dash callbacks from the frame: [update_pie] and
    [update_scatter].

    The development has four layers.
    - The data model: rows with possibly missing cells, boolean masks and the
      pandas operations the script calls ([dropna], boolean indexing,
      [groupby(...).count()], [min], [max]).
    - The values the callbacks compute, named after the local variables of
      the script ([successes_by_site], [site_df], [outcome_counts], [mask],
      [filtered]).
    - The callbacks as the script runs them: over a store of objects, where
      [mask &= ...] updates an object in place and every other operation
      allocates a new one.
    - The page: the slider label, and the wiring of the two controls to the
      three outputs that the callback decorators declare.

    Numbers are integers or finite floats.  An integer that meets a float,
    in a comparison or in [float(...)], is first rounded to float64. *)

From Stdlib Require Import ZArith QArith String Ascii List.
From Stdlib Require Import DecimalString DecimalPos DecimalN.
From stdpp Require Import base option list sorting strings gmap.

Local Open Scope string_scope.
Local Open Scope list_scope.
Local Open Scope nat_scope.

(** ** Data model *)

(** A number as Python and numpy hold it: an integer (a Python [int], a
    cell of an [int64] column) or a float (a Python [float], a cell of a
    [float64] column).  A float is finite and is given by the rational it
    denotes; NaN is the missing cell or bound, [None]. *)
Inductive Number :=
| Int (z : Z)
| Float (q : Q).

(** Rounding to the nearest multiple of [2^e], a tie going to the even
    multiple. *)
Definition round_to_even (e n : Z) : Z :=
  let m := (2 ^ e)%Z in
  let q := (n / m)%Z in
  match (2 * (n mod m) ?= m)%Z with
  | Lt => (q * m)%Z
  | Gt => ((q + 1) * m)%Z
  | Eq => if Z.even q then (q * m)%Z else ((q + 1) * m)%Z
  end.

(** The value of an integer once converted to float64: its 53 leading bits,
    rounded to nearest, a tie going to even. *)
Definition round53 (z : Z) : Z :=
  let e := (Z.log2 (Z.abs z) - 52)%Z in
  if (e <=? 0)%Z then z else (Z.sgn z * round_to_even e (Z.abs z))%Z.

(** [float(x)], and the conversion numpy makes of an integer that meets a
    float. *)
Definition float (x : Number) : Q :=
  match x with
  | Int z => inject_Z (round53 z)
  | Float q => q
  end.

(** [a <= b] on two numbers: two integers are compared as they are;
    otherwise both sides are compared as floats. *)
Definition num_leb (a b : Number) : bool :=
  match a, b with
  | Int x, Int y => (x <=? y)%Z
  | _, _ => Qle_bool (float a) (float b)
  end.

(** A cell that pandas reads as NaN is [None].  A table has the four
    columns of the input format; the payload mass is a number in
    kilograms. *)
Record Row := mkRow {
  Launch_Site : option string;
  class : option Z;
  Payload_Mass : option Number;
  Booster_Version_Category : option string
}.

Abbreviation DataFrame := (list Row).

Inductive Column :=
| col_Launch_Site
| col_class
| col_Payload_Mass
| col_Booster_Version_Category.

Definition is_nan {A} (x : option A) : bool :=
  match x with
  | None => true
  | Some _ => false
  end.

(** [df[col].isna()], row by row. *)
Definition isna (c : Column) (r : Row) : bool :=
  match c with
  | col_Launch_Site => is_nan (Launch_Site r)
  | col_class => is_nan (class r)
  | col_Payload_Mass => is_nan (Payload_Mass r)
  | col_Booster_Version_Category => is_nan (Booster_Version_Category r)
  end.

(** Boolean indexing [df[mask]]: the rows whose mask entry is [True]. *)
Fixpoint getitem_mask {A} (df : list A) (m : list bool) : list A :=
  match df, m with
  | r :: df', b :: m' =>
      if b then r :: getitem_mask df' m' else getitem_mask df' m'
  | _, _ => []
  end.

(** [df.dropna(subset=cols)], with the default [how='any']: a row goes as
    soon as one of the listed columns is missing in it. *)
Definition dropna (subset : list Column) (df : DataFrame) : DataFrame :=
  getitem_mask df (map (fun r => negb (existsb (fun c => isna c r) subset)) df).

(** The cleanup line of the script. *)
Definition cleanup (df : DataFrame) : DataFrame :=
  dropna [col_Launch_Site; col_class; col_Payload_Mass] df.

(** ** Loading *)

Inductive Exception :=
| FileNotFoundError (msg : string)
| IsADirectoryError
| EmptyDataError
| ParserError
| UnicodeDecodeError
| KeyError (missing : list string).

(** What the CSV reader of pandas makes of a text: the column names of the
    header and the rows, or one of its own errors. *)
Inductive ReaderError :=
| reader_empty_data
| reader_parser_error
| reader_unicode_error.

Inductive Parse :=
| parsed (columns : list string) (rows : list Row)
| parse_fails (e : ReaderError).

Definition reader_exception (e : ReaderError) : Exception :=
  match e with
  | reader_empty_data => EmptyDataError
  | reader_parser_error => ParserError
  | reader_unicode_error => UnicodeDecodeError
  end.

Inductive Result (A : Type) :=
| Ok (a : A)
| Raise (e : Exception).
Arguments Ok {A} a.
Arguments Raise {A} e.

Inductive FsNode :=
| RegularFile (content : string)
| Directory.

(** [os.environ.get(key, default)]. *)
Definition environ_get (environ : gmap string string) (key default : string)
  : string :=
  match environ !! key with
  | Some v => v
  | None => default
  end.

Definition CSV_PATH (environ : gmap string string) : string :=
  environ_get environ "SPACEX_DASH_CSV" "spacex_launch_dash.csv".

(** [os.path.exists]: true for whatever the path names, a file or a
    directory. *)
Definition os_path_exists (fs : gmap string FsNode) (p : string) : bool :=
  match fs !! p with
  | Some _ => true
  | None => false
  end.

Definition not_found_msg (p : string) : string :=
  "CSV file not found at '" +:+ p +:+ "'. " +:+
  "Place 'spacex_launch_dash.csv' next to this script or set SPACEX_DASH_CSV env var.".

(** A text made of spaces and line ends only: it has no header line. *)
Definition blank (txt : string) : bool :=
  forallb (fun c => Ascii.eqb c " "%char || Ascii.eqb c "010"%char)
          (list_ascii_of_string txt).

(** The columns that [dropna(subset=...)] is asked to look at. *)
Definition key_columns : list string :=
  ["Launch Site"; "class"; "Payload Mass (kg)"].

(** The labels of [subset] that the frame does not have, in the order of
    [subset]. *)
Definition missing_columns (subset columns : list string) : list string :=
  filter (fun c => c ∉ columns) subset.

Section Loading.
(** The CSV tokenizer of pandas on a text that is not blank. *)
Variable parse_csv : string -> Parse.

(** [pd.read_csv(path)]: opening fails on a missing path and on a
    directory; a blank text, the empty one included, has no columns to
    parse (pandas raises [EmptyDataError]); any other text goes to the
    tokenizer, which gives the frame or raises its own error. *)
Definition pd_read_csv (fs : gmap string FsNode) (p : string)
  : Result (list string * DataFrame) :=
  match fs !! p with
  | None => Raise (FileNotFoundError p)
  | Some Directory => Raise IsADirectoryError
  | Some (RegularFile txt) =>
      if blank txt then Raise EmptyDataError
      else match parse_csv txt with
           | parsed columns rows => Ok (columns, rows)
           | parse_fails e => Raise (reader_exception e)
           end
  end.

(** The module-level statements up to the cleanup: the value bound to
    [spacex_df] when the callbacks are registered, or the exception that
    stops the process.  [dropna] raises [KeyError] with the columns of its
    subset that the frame lacks. *)
Definition load (environ : gmap string string) (fs : gmap string FsNode)
  : Result DataFrame :=
  let path := CSV_PATH environ in
  if os_path_exists fs path then
    match pd_read_csv fs path with
    | Ok (columns, rows) =>
        match missing_columns key_columns columns with
        | [] => Ok (cleanup rows)
        | missing => Raise (KeyError missing)
        end
    | Raise e => Raise e
    end
  else Raise (FileNotFoundError (not_found_msg path)).
End Loading.

(** ** Series *)

(** Comparison of a cell with a bound: false as soon as one side is NaN. *)
Definition ge_scalar (x v : option Number) : bool :=
  match x, v with
  | Some a, Some b => num_leb b a
  | _, _ => false
  end.

Definition le_scalar (x v : option Number) : bool :=
  match x, v with
  | Some a, Some b => num_leb a b
  | _, _ => false
  end.

(** [series == v]: a missing cell equals nothing. *)
Definition eq_scalar {A} `{EqDecision A} (x : option A) (v : A) : bool :=
  bool_decide (x = Some v).

(** [a & b] on two boolean series. *)
Definition series_and (a b : list bool) : list bool := zip_with andb a b.

Definition num_min (a b : Number) : Number := if num_leb a b then a else b.
Definition num_max (a b : Number) : Number := if num_leb a b then b else a.

(** [series.min()] and [series.max()] skip the missing cells; the result is
    NaN when nothing is left. *)
Definition skipna_fold (f : Number -> Number -> Number)
  (s : list (option Number)) : option Number :=
  foldr (fun x acc =>
           match x, acc with
           | Some a, Some b => Some (f a b)
           | Some a, None => Some a
           | None, _ => acc
           end) None s.

Definition series_min : list (option Number) -> option Number :=
  skipna_fold num_min.
Definition series_max : list (option Number) -> option Number :=
  skipna_fold num_max.

(** [float(series.min())] and [float(series.max())]. *)
Definition payload_min (spacex_df : DataFrame) : option Number :=
  option_map (fun m => Float (float m))
             (series_min (map Payload_Mass spacex_df)).
Definition payload_max (spacex_df : DataFrame) : option Number :=
  option_map (fun m => Float (float m))
             (series_max (map Payload_Mass spacex_df)).

(** ** Grouping *)

Section GroupBy.
Context {K : Type} `{EqDecision K}.
Context (R : relation K) `{forall x y, Decision (R x y)}.

(** [series.unique()]: the distinct values in the order in which they
    first appear. *)
Fixpoint unique (l : list K) : list K :=
  match l with
  | [] => []
  | x :: l' => x :: filter (fun y => y <> x) (unique l')
  end.

(** The group keys of [df.groupby(key)]: the distinct keys that are not
    missing, in ascending order. *)
Definition group_keys (key : Row -> option K) (df : DataFrame) : list K :=
  merge_sort R (unique (omap key df)).

(** The rows of one group. *)
Definition group (key : Row -> option K) (k : K) (df : DataFrame)
  : DataFrame :=
  filter (fun r => key r = Some k) df.

(** [df.groupby(key)[col].count()]: per group, the number of rows whose
    [col] cell is not missing ([notna]). *)
Definition groupby_count (key : Row -> option K) (notna : Row -> bool)
  (df : DataFrame) : list (K * nat) :=
  map (fun k => (k, length (filter (fun r => notna r = true) (group key k df))))
      (group_keys key df).

(** The number of rows counted for the key [k]. *)
Definition counted (key : Row -> option K) (notna : Row -> bool) (k : K)
  (df : DataFrame) : nat :=
  length (filter (fun r => key r = Some k /\ notna r = true) df).

(** The row has a key, one of [ks], and is counted. *)
Definition counted_in (key : Row -> option K) (notna : Row -> bool)
  (ks : list K) (r : Row) : Prop :=
  (exists k, key r = Some k /\ k ∈ ks) /\ notna r = true.

#[global] Instance counted_in_dec key notna ks r :
  Decision (counted_in key notna ks r).
Proof.
  unfold counted_in. apply and_dec; [|apply _].
  destruct (key r) as [k|].
  - destruct (decide (k ∈ ks)) as [Hin|Hout].
    + left. eauto.
    + right. intros (k' & Hk' & Hin). congruence.
  - right. intros (k' & Hk' & _). discriminate.
Defined.
End GroupBy.

Definition str_le (a b : string) : Prop := String.leb a b = true.

#[global] Instance str_le_dec a b : Decision (str_le a b).
Proof. unfold str_le. apply _. Defined.

(** [sorted(spacex_df['Launch Site'].unique().tolist())], on the cleaned
    frame, where no site is missing. *)
Definition launch_sites (spacex_df : DataFrame) : list string :=
  merge_sort str_le (unique (omap Launch_Site spacex_df)).

(** The values of the drop-down options. *)
Definition dropdown_options (spacex_df : DataFrame) : list string :=
  "ALL" :: launch_sites spacex_df.

(** ** The values the callbacks compute *)

(** A label of a pie slice: a string, or a number left as it is. *)
Inductive Label :=
| LStr (s : string)
| LNum (z : Z).

#[global] Instance Label_eq_dec : EqDecision Label.
Proof. solve_decision. Defined.

(** What is handed to plotly express: the frame and the title.  For the
    pie the frame has the columns [names] and [values]; for the scatter
    each row is one point, [x] its payload mass and [y] its class. *)
Inductive Figure :=
| px_pie (data_frame : list (Label * nat)) (title : string)
| px_scatter (data_frame : DataFrame) (title : string).

Definition notna_class (r : Row) : bool := negb (is_nan (class r)).

Definition successes_by_site (spacex_df : DataFrame) : list (string * nat) :=
  groupby_count str_le Launch_Site notna_class
    (getitem_mask spacex_df (map (fun r => eq_scalar (class r) 1%Z) spacex_df)).

Definition site_df (spacex_df : DataFrame) (selected_site : string)
  : DataFrame :=
  getitem_mask spacex_df
    (map (fun r => eq_scalar (Launch_Site r) selected_site) spacex_df).

(** [.rename(index={0: 'Failure', 1: 'Success'})]: any other class keeps
    its number. *)
Definition rename_index (c : Z) : Label :=
  if bool_decide (c = 0%Z) then LStr "Failure"
  else if bool_decide (c = 1%Z) then LStr "Success"
  else LNum c.

Definition outcome_counts (spacex_df : DataFrame) (selected_site : string)
  : list (Label * nat) :=
  map (fun kc => (rename_index (fst kc), snd kc))
      (groupby_count Z.le class notna_class (site_df spacex_df selected_site)).

Definition update_pie (spacex_df : DataFrame) (selected_site : string)
  : Figure :=
  if bool_decide (selected_site = "ALL") then
    px_pie (map (fun sc => (LStr (fst sc), snd sc)) (successes_by_site spacex_df))
           "Total Successful Launches by Site"
  else
    px_pie (outcome_counts spacex_df selected_site)
           ("Launch Outcomes for " +:+ selected_site).

Definition mask (spacex_df : DataFrame) (selected_site : string)
  (payload_range : option Number * option Number) : list bool :=
  let '(lo, hi) := payload_range in
  let mask :=
    series_and (map (fun r => ge_scalar (Payload_Mass r) lo) spacex_df)
               (map (fun r => le_scalar (Payload_Mass r) hi) spacex_df) in
  if bool_decide (selected_site <> "ALL") then
    series_and mask
      (map (fun r => eq_scalar (Launch_Site r) selected_site) spacex_df)
  else mask.

Definition filtered (spacex_df : DataFrame) (selected_site : string)
  (payload_range : option Number * option Number) : DataFrame :=
  getitem_mask spacex_df (mask spacex_df selected_site payload_range).

Definition scatter_title (selected_site : string) : string :=
  "Correlation between Payload and Success " +:+
  (if bool_decide (selected_site = "ALL") then "(All Sites)"
   else "(" +:+ selected_site +:+ ")").

Definition update_scatter (spacex_df : DataFrame) (selected_site : string)
  (payload_range : option Number * option Number) : Figure :=
  px_scatter (filtered spacex_df selected_site payload_range)
             (scatter_title selected_site).

(** The slices of a pie and their counts. *)
Definition pie_slices (fig : Figure) : list (Label * nat) :=
  match fig with
  | px_pie d _ => d
  | px_scatter _ _ => []
  end.

Definition pie_values (fig : Figure) : list nat := map snd (pie_slices fig).

(** What [px.scatter] draws of a frame with
    [color='Booster Version Category']: one trace per colour.  When the
    column holds one value only, a missing one included, the whole frame is
    one trace.  Otherwise plotly groups the frame by colour, in the order in
    which the colours first appear, and the grouping drops the rows whose
    colour is missing. *)
Definition scatter_traces (df : DataFrame) : list DataFrame :=
  match unique (map Booster_Version_Category df) with
  | [_] => [df]
  | colours =>
      map (fun b => filter (fun r => Booster_Version_Category r = Some b) df)
          (omap id colours)
  end.

(** The rows a scatter draws, trace after trace. *)
Definition scatter_rows (fig : Figure) : DataFrame :=
  match fig with
  | px_scatter d _ => concat (scatter_traces d)
  | px_pie _ _ => []
  end.

(** The points of a scatter: [x='Payload Mass (kg)'], [y='class']. *)
Definition scatter_points (fig : Figure) : list (option Number * option Z) :=
  map (fun r => (Payload_Mass r, class r)) (scatter_rows fig).

Definition scatter_frame (fig : Figure) : DataFrame :=
  match fig with
  | px_scatter d _ => d
  | px_pie _ _ => []
  end.


(** ** The slider label *)

(** Rounding to the nearest integer, a tie going to the even one: what the
    format [.0f] does with the exact value of a float. *)
Definition round_half_even (q : Q) : Z :=
  let n := Qnum q in
  let d := Z.pos (Qden q) in
  let fl := (n / d)%Z in
  match (2 * (n mod d) ?= d)%Z with
  | Lt => fl
  | Gt => (fl + 1)%Z
  | Eq => if Z.even fl then fl else (fl + 1)%Z
  end.

(** The thousands separator of the format [,], on the digits taken from
    the right: a comma after every group of three digits that is followed
    by another digit. *)
Fixpoint commas_rev (l : list ascii) : list ascii :=
  match l with
  | a :: b :: c :: ((_ :: _) as rest) =>
      a :: b :: c :: ","%char :: commas_rev rest
  | _ => l
  end.

Definition thousands (digits : string) : string :=
  string_of_list_ascii
    (reverse (commas_rev (reverse (list_ascii_of_string digits)))).

Definition decimal (n : N) : string := NilZero.string_of_uint (N.to_uint n).

(** [format(x, ',.0f')] on a finite number: [x] is made a float, then come
    its sign and its magnitude rounded to an integer, with separators;
    [nan] for NaN. *)
Definition format_comma_0f (x : option Number) : string :=
  match x with
  | None => "nan"
  | Some n =>
      (if (Qnum (float n) <? 0)%Z then "-" else "")
      +:+ thousands (decimal (Z.abs_N (round_half_even (float n))))
  end.

Definition _update_payload_label (range_vals : option Number * option Number) : string :=
  let '(lo, hi) := range_vals in
  "Current range: " +:+ format_comma_0f lo +:+ " kg — "
  +:+ format_comma_0f hi +:+ " kg".

(** ** The callbacks over a store of objects

    In the running program the frame, the masks and the filtered copies are
    objects.  A comparison, [&], boolean indexing and [.copy()] allocate a
    new object; [mask &= other] writes into the object [mask] names.  A
    computation that pandas would stop with an exception (an operand of the
    wrong kind, an indexer of the wrong length) yields [None]. *)
Module Store.

Inductive Object :=
| ODataFrame (df : DataFrame)
| OSeries (s : list bool).

Abbreviation store := (list Object).

Definition M (A : Type) : Type := store -> option (A * store).

Definition ret {A} (a : A) : M A := fun st => Some (a, st).

Definition bind {A B} (m : M A) (k : A -> M B) : M B :=
  fun st =>
    match m st with
    | Some (a, st') => k a st'
    | None => None
    end.

Definition raise {A} : M A := fun _ => None.

Notation "'let*' x := m 'in' k" := (bind m (fun x => k))
  (at level 10, x name, m at level 100, k at level 200).
Notation "'run' m 'in' k" := (bind m (fun _ => k))
  (at level 10, m at level 100, k at level 200).

(** A new object gets the next free address. *)
Definition alloc (o : Object) : M nat :=
  fun st => Some (length st, st ++ [o]).

Definition read_frame (a : nat) : M DataFrame :=
  fun st =>
    match st !! a with
    | Some (ODataFrame df) => Some (df, st)
    | _ => None
    end.

Definition read_series (a : nat) : M (list bool) :=
  fun st =>
    match st !! a with
    | Some (OSeries s) => Some (s, st)
    | _ => None
    end.

Definition write (a : nat) (o : Object) : M unit :=
  fun st => if decide (a < length st) then Some (tt, <[a := o]> st) else None.

(** [df[col] >= v], [df[col] <= v], [df[col] == v]: a new boolean series,
    one entry per row. *)
Definition frame_compare (df : nat) (test : Row -> bool) : M nat :=
  let* rows := read_frame df in
  alloc (OSeries (map test rows)).

(** [a & b]: a new series. *)
Definition and_ (a b : nat) : M nat :=
  let* x := read_series a in
  let* y := read_series b in
  alloc (OSeries (series_and x y)).

(** [a &= b]: the result replaces the content of [a]. *)
Definition iand (a b : nat) : M unit :=
  let* x := read_series a in
  let* y := read_series b in
  write a (OSeries (series_and x y)).

(** [df[mask]]: a new frame; the indexer must have one entry per row. *)
Definition getitem (df m : nat) : M nat :=
  let* rows := read_frame df in
  let* s := read_series m in
  if decide (length s = length rows)
  then alloc (ODataFrame (getitem_mask rows s))
  else raise.

(** [df.copy()]. *)
Definition copy (df : nat) : M nat :=
  let* rows := read_frame df in
  alloc (ODataFrame rows).

(** [update_pie], with [spacex_df] the address of the global frame. *)
Definition update_pie (spacex_df : nat) (selected_site : string) : M Figure :=
  if bool_decide (selected_site = "ALL") then
    let* m := frame_compare spacex_df (fun r => eq_scalar (class r) 1%Z) in
    let* won := getitem spacex_df m in
    let* rows := read_frame won in
    let successes_by_site := groupby_count str_le Launch_Site notna_class rows in
    ret (px_pie (map (fun sc => (LStr (fst sc), snd sc)) successes_by_site)
                "Total Successful Launches by Site")
  else
    let* m := frame_compare spacex_df
           (fun r => eq_scalar (Launch_Site r) selected_site) in
    let* site_df := getitem spacex_df m in
    let* rows := read_frame site_df in
    let outcome_counts :=
      map (fun kc => (rename_index (fst kc), snd kc))
          (groupby_count Z.le class notna_class rows) in
    ret (px_pie outcome_counts ("Launch Outcomes for " +:+ selected_site)).

(** [update_scatter], with [spacex_df] the address of the global frame. *)
Definition update_scatter (spacex_df : nat) (selected_site : string)
  (payload_range : option Number * option Number) : M Figure :=
  let '(lo, hi) := payload_range in
  let* ge := frame_compare spacex_df (fun r => ge_scalar (Payload_Mass r) lo) in
  let* le := frame_compare spacex_df (fun r => le_scalar (Payload_Mass r) hi) in
  let* mask := and_ ge le in
  run (if bool_decide (selected_site <> "ALL") then
     let* eq := frame_compare spacex_df
             (fun r => eq_scalar (Launch_Site r) selected_site) in
     iand mask eq
   else ret tt) in
  let* sub := getitem spacex_df mask in
  let* filtered := copy sub in
  let* rows := read_frame filtered in
  ret (px_scatter rows (scatter_title selected_site)).

End Store.

(** ** The page and its callbacks

    The layout declares two controls and three outputs, and the decorators
    tie them: [_update_payload_label] listens to the slider, [update_pie]
    to the drop-down, [update_scatter] to both.  Dash calls every callback
    once when the page loads and then, on each change of a control, the
    callbacks that list it as an input, with the current value of each of
    their inputs. *)
Record Page := mkPage {
  site_dropdown : string;
  payload_slider : option Number * option Number;
  payload_range_text : option string;
  success_pie_chart : option Figure;
  success_payload_scatter_chart : option Figure
}.

(** [app.layout]: the drop-down on ALL, the slider on the whole span, the
    outputs not filled yet. *)
Definition layout (spacex_df : DataFrame) : Page :=
  mkPage "ALL" (payload_min spacex_df, payload_max spacex_df) None None None.

(** The calls made when the page loads. *)
Definition initial_call (spacex_df : DataFrame) (p : Page) : Page :=
  mkPage (site_dropdown p) (payload_slider p)
    (Some (_update_payload_label (payload_slider p)))
    (Some (update_pie spacex_df (site_dropdown p)))
    (Some (update_scatter spacex_df (site_dropdown p) (payload_slider p))).

(** A change of one control by the user. *)
Inductive Change :=
| set_site_dropdown (value : string)
| set_payload_slider (value : option Number * option Number).

Definition on_change (spacex_df : DataFrame) (p : Page) (c : Change) : Page :=
  match c with
  | set_site_dropdown s =>
      mkPage s (payload_slider p)
        (payload_range_text p)
        (Some (update_pie spacex_df s))
        (Some (update_scatter spacex_df s (payload_slider p)))
  | set_payload_slider r =>
      mkPage (site_dropdown p) r
        (Some (_update_payload_label r))
        (success_pie_chart p)
        (Some (update_scatter spacex_df (site_dropdown p) r))
  end.

(** The page after it has loaded and the user has made the changes [cs],
    one after the other. *)
Definition session (spacex_df : DataFrame) (cs : list Change) : Page :=
  foldl (on_change spacex_df) (initial_call spacex_df (layout spacex_df)) cs.

(** A request of the browser for one figure, and the callbacks answering a
    list of requests one after the other over the store. *)
Inductive Request :=
| pie_request (selected_site : string)
| scatter_request (selected_site : string) (payload_range : option Number * option Number).

Definition dispatch (spacex_df : nat) (rq : Request) : Store.M Figure :=
  match rq with
  | pie_request s => Store.update_pie spacex_df s
  | scatter_request s r => Store.update_scatter spacex_df s r
  end.

Fixpoint serve (spacex_df : nat) (rqs : list Request)
  : Store.M (list Figure) :=
  match rqs with
  | [] => Store.ret []
  | rq :: rqs' =>
      Store.bind (dispatch spacex_df rq) (fun fig =>
      Store.bind (serve spacex_df rqs') (fun figs =>
      Store.ret (fig :: figs)))
  end.

(** ** Vocabulary of the statements *)

(** The three cells the cleanup looks at are all there. *)
Definition key_columns_present (r : Row) : Prop :=
  is_Some (Launch_Site r) /\ is_Some (class r) /\ is_Some (Payload_Mass r).

#[global] Instance key_columns_present_dec r : Decision (key_columns_present r).
Proof. unfold key_columns_present. apply _. Defined.

(** The number a value stands for. *)
Definition value (x : Number) : Q :=
  match x with
  | Int z => inject_Z z
  | Float q => q
  end.

(** A number that float64 holds as it is: a float, or an integer of
    magnitude at most [2^53]. *)
Definition exact (x : Number) : Prop :=
  match x with
  | Int z => (Z.abs z <= 2 ^ 53)%Z
  | Float _ => True
  end.

(** Two numbers of the same kind: two integers or two floats. *)
Definition same_kind (a b : Number) : Prop :=
  match a, b with
  | Int _, Int _ | Float _, Float _ => True
  | _, _ => False
  end.

(** [a <= b] as the comparisons of the code evaluate it, on numbers that
    may be NaN: no NaN is below or above anything. *)
Definition num_le (a b : option Number) : Prop :=
  match a, b with
  | Some x, Some y => num_leb x y = true
  | _, _ => False
  end.

#[global] Instance num_le_dec a b : Decision (num_le a b).
Proof. destruct a as [x|], b as [y|]; simpl; apply _. Defined.

(** [a <= b] on the numbers the two values stand for. *)
Definition value_le (a b : option Number) : Prop :=
  match a, b with
  | Some x, Some y => (value x <= value y)%Q
  | _, _ => False
  end.

(** The condition of the Correlation View on one record. *)
Definition kept (selected_site : string) (lo hi : option Number) (r : Row) : Prop :=
  num_le lo (Payload_Mass r) /\ num_le (Payload_Mass r) hi /\
  (selected_site = "ALL" \/ Launch_Site r = Some selected_site).

#[global] Instance kept_dec s lo hi r : Decision (kept s lo hi r).
Proof. unfold kept. apply _. Defined.

(** The records of site [s] with outcome [c]. *)
Definition site_outcome (s : string) (c : Z) (df : DataFrame) : DataFrame :=
  filter (fun r => Launch_Site r = Some s /\ class r = Some c) df.

(** The records that match the selection of the drop-down: every record
    for ALL, the records of the selected site otherwise. *)
Definition matching_records (spacex_df : DataFrame) (selected_site : string)
  : DataFrame :=
  if bool_decide (selected_site = "ALL") then spacex_df
  else filter (fun r => Launch_Site r = Some selected_site) spacex_df.

(** A text without its commas. *)
Definition strip_commas (s : string) : string :=
  string_of_list_ascii
    (filter (fun c => c <> ","%char) (list_ascii_of_string s)).

(** The page shows, for the current value of its controls, what the
    callbacks compute from the table. *)
Definition up_to_date (spacex_df : DataFrame) (p : Page) : Prop :=
  payload_range_text p = Some (_update_payload_label (payload_slider p)) /\
  success_pie_chart p = Some (update_pie spacex_df (site_dropdown p)) /\
  success_payload_scatter_chart p
    = Some (update_scatter spacex_df (site_dropdown p) (payload_slider p)).

(** The controls after a list of changes: each holds the last value given
    to it, or its value before the changes. *)
Fixpoint last_site (s : string) (cs : list Change) : string :=
  match cs with
  | [] => s
  | set_site_dropdown s' :: cs' => last_site s' cs'
  | set_payload_slider _ :: cs' => last_site s cs'
  end.

Fixpoint last_range (r : option Number * option Number) (cs : list Change)
  : option Number * option Number :=
  match cs with
  | [] => r
  | set_site_dropdown _ :: cs' => last_range r cs'
  | set_payload_slider r' :: cs' => last_range r' cs'
  end.

(** The figure a request asks for, from the table. *)
Definition answer (spacex_df : DataFrame) (rq : Request) : Figure :=
  match rq with
  | pie_request s => update_pie spacex_df s
  | scatter_request s r => update_scatter spacex_df s r
  end.

(** ** Sample inputs *)

(** Four records, with sites A, A, B, B and outcomes 1, 0, 1, 1; the last
    one has no booster category. *)
Definition t4 : DataFrame :=
  [ mkRow (Some "A") (Some 1%Z) (Some (Float (500#1))) (Some "v1.0");
    mkRow (Some "A") (Some 0%Z) (Some (Float (1200#1))) (Some "v1.1");
    mkRow (Some "B") (Some 1%Z) (Some (Float (3000#1))) (Some "FT");
    mkRow (Some "B") (Some 1%Z) (Some (Float (5300#1))) None ].

(** The header of a file in the input format, and a header without the
    outcome column. *)
Definition full_header : list string :=
  ["Launch Site"; "class"; "Payload Mass (kg)"; "Booster Version Category"].
Definition header_without_class : list string :=
  ["Launch Site"; "Payload Mass (kg)"; "Booster Version Category"].

(** The text of a file that holds the four records, and a reader that
    knows this text only. *)
Definition t4_csv : string :=
  "Launch Site,class,Payload Mass (kg),Booster Version Category
A,1,500.0,v1.0
A,0,1200.0,v1.1
B,1,3000.0,FT
B,1,5300.0,
".

Definition t4_reader (txt : string) : Parse :=
  if String.eqb txt t4_csv then parsed full_header t4
  else parse_fails reader_parser_error.

(** The text of a file without the outcome column, and a reader that
    knows this text only. *)
Definition no_class_csv : string :=
  "Launch Site,Payload Mass (kg),Booster Version Category
A,500.0,v1.0
".

Definition no_class_reader (txt : string) : Parse :=
  if String.eqb txt no_class_csv
  then parsed header_without_class
         [ mkRow (Some "A") None (Some (Float (500#1))) (Some "v1.0") ]
  else parse_fails reader_parser_error.

(** A file with one record, of negative payload mass. *)
Definition negative_payload_file : DataFrame :=
  [ mkRow (Some "CCAFS LC-40") (Some 0%Z) (Some (Float (-5 # 1))) (Some "v1.0") ].

(** A file system where the default path names a file without any text. *)
Definition empty_file_fs : gmap string FsNode :=
  {[ "spacex_launch_dash.csv" := RegularFile EmptyString ]}.

(** A table whose payload column holds integers, with one record of
    payload mass [2^53 + 1]. *)
Definition big_payload_table : DataFrame :=
  [ mkRow (Some "A") (Some 1%Z) (Some (Int (2 ^ 53 + 1))) (Some "FT") ].

(** ** Numbers *)

Section NumberFacts.
Local Open Scope Z_scope.

Lemma round_to_even_bounds (e n : Z) :
  (0 <= e)%Z ->
  (n / 2 ^ e * 2 ^ e <= round_to_even e n <= (n / 2 ^ e + 1) * 2 ^ e)%Z.
Proof.
  intros He. unfold round_to_even.
  assert (0 < 2 ^ e)%Z by (apply Z.pow_pos_nonneg; lia).
  destruct (2 * (n mod 2 ^ e) ?= 2 ^ e)%Z; try destruct (Z.even _); nia.
Qed.

Lemma round_to_even_multiple (e k : Z) :
  (0 <= e)%Z -> round_to_even e (k * 2 ^ e) = (k * 2 ^ e)%Z.
Proof.
  intros He. unfold round_to_even.
  assert (0 < 2 ^ e)%Z by (apply Z.pow_pos_nonneg; lia).
  rewrite Z.mod_mul, Z.div_mul by lia.
  destruct (Z.compare_spec (2 * 0) (2 ^ e)); lia.
Qed.

Lemma round_to_even_mono (e a b : Z) :
  (0 <= e)%Z -> (a <= b)%Z -> (round_to_even e a <= round_to_even e b)%Z.
Proof.
  intros He Hab.
  assert (Hm : (0 < 2 ^ e)%Z) by (apply Z.pow_pos_nonneg; lia).
  pose proof (Z.div_le_mono a b (2 ^ e) Hm Hab) as Hq.
  destruct (Z_lt_le_dec (a / 2 ^ e) (b / 2 ^ e)) as [Hlt|Hge].
  - pose proof (round_to_even_bounds e a He).
    pose proof (round_to_even_bounds e b He). nia.
  - assert (Heq : (a / 2 ^ e = b / 2 ^ e)%Z) by lia.
    pose proof (Z.div_mod a (2 ^ e) ltac:(lia)) as Ha.
    pose proof (Z.div_mod b (2 ^ e) ltac:(lia)) as Hb.
    unfold round_to_even. rewrite <- Heq.
    destruct (Z.compare_spec (2 * (a mod 2 ^ e)) (2 ^ e)),
             (Z.compare_spec (2 * (b mod 2 ^ e)) (2 ^ e));
      destruct (Z.even (a / 2 ^ e)); nia.
Qed.

Lemma round53_small (z : Z) : (Z.abs z < 2 ^ 53)%Z -> round53 z = z.
Proof.
  intros Hz. unfold round53.
  destruct (Z.eq_dec z 0%Z) as [->|Hnz]; [reflexivity|].
  assert (Z.log2 (Z.abs z) < 53)%Z by (apply Z.log2_lt_pow2; lia).
  rewrite (proj2 (Z.leb_le _ _)) by lia. reflexivity.
Qed.

Lemma round53_exact (z : Z) : (Z.abs z <= 2 ^ 53)%Z -> round53 z = z.
Proof.
  intros Hz. destruct (Z.eq_dec (Z.abs z) (2 ^ 53)) as [Heq|Hne].
  - destruct (Z.abs_spec z) as [[_ Habs]|[_ Habs]]; rewrite Habs in Heq.
    + subst z. reflexivity.
    + replace z with (- 2 ^ 53)%Z by lia. reflexivity.
  - apply round53_small. lia.
Qed.

Lemma round53_opp (z : Z) : round53 (- z) = (- round53 z)%Z.
Proof.
  unfold round53. rewrite Z.abs_opp, Z.sgn_opp.
  destruct (Z.log2 (Z.abs z) - 52 <=? 0)%Z; lia.
Qed.

(** Above [2^53] the rounded value stays in the binade of the integer. *)
Lemma round53_binade (z : Z) :
  (0 < z)%Z -> (0 < Z.log2 z - 52)%Z ->
  (2 ^ Z.log2 z <= round53 z <= 2 ^ (Z.log2 z + 1))%Z.
Proof.
  intros Hz He. unfold round53.
  rewrite Z.abs_eq by lia. rewrite (proj2 (Z.leb_gt _ _)) by lia.
  rewrite Z.sgn_pos by lia. rewrite Z.mul_1_l.
  set (e := (Z.log2 z - 52)%Z) in *.
  destruct (Z.log2_spec z Hz) as [Hlo Hhi].
  assert (H1 : (2 ^ Z.log2 z = 2 ^ 52 * 2 ^ e)%Z).
  { rewrite <- Z.pow_add_r by lia. f_equal. lia. }
  assert (H2 : (2 ^ (Z.log2 z + 1) = 2 ^ 53 * 2 ^ e)%Z).
  { rewrite <- Z.pow_add_r by lia. f_equal. lia. }
  split.
  - rewrite H1, <- (round_to_even_multiple e (2 ^ 52)) by lia.
    apply round_to_even_mono; lia.
  - rewrite H2, <- (round_to_even_multiple e (2 ^ 53)) by lia.
    apply round_to_even_mono; lia.
Qed.

Lemma round53_mono_nonneg (a b : Z) :
  (0 <= a)%Z -> (a <= b)%Z -> (round53 a <= round53 b)%Z.
Proof.
  intros Ha Hab.
  destruct (Z_le_gt_dec (Z.log2 b - 52) 0%Z) as [Hb|Hb].
  - assert (Z.log2 a <= Z.log2 b)%Z by (apply Z.log2_le_mono; lia).
    unfold round53. rewrite !Z.abs_eq by lia.
    rewrite !(proj2 (Z.leb_le _ _)) by lia. exact Hab.
  - assert (Hbpos : (0 < b)%Z).
    { destruct (Z.eq_dec b 0%Z) as [->|]; [simpl in Hb; lia | lia]. }
    pose proof (round53_binade b Hbpos ltac:(lia)) as [Hblo _].
    destruct (Z_le_gt_dec (Z.log2 a - 52) 0%Z) as [Ha0|Ha0].
    + assert (a < 2 ^ 53)%Z.
      { destruct (Z.eq_dec a 0%Z) as [->|]; [reflexivity|].
        apply Z.log2_lt_pow2; lia. }
      rewrite (round53_small a) by (rewrite Z.abs_eq; lia).
      assert (2 ^ 53 <= 2 ^ Z.log2 b)%Z by (apply Z.pow_le_mono_r; lia).
      lia.
    + assert (Hapos : (0 < a)%Z).
      { destruct (Z.eq_dec a 0%Z) as [->|]; [simpl in Ha0; lia | lia]. }
      assert (Hlog : (Z.log2 a <= Z.log2 b)%Z) by (apply Z.log2_le_mono; lia).
      destruct (Z.eq_dec (Z.log2 a) (Z.log2 b)) as [Heq|Hne].
      * unfold round53. rewrite !Z.abs_eq by lia. rewrite Heq.
        rewrite (proj2 (Z.leb_gt _ _)) by lia.
        rewrite !Z.sgn_pos by lia. rewrite !Z.mul_1_l.
        apply round_to_even_mono; lia.
      * pose proof (round53_binade a Hapos ltac:(lia)) as [_ Hahi].
        assert (2 ^ (Z.log2 a + 1) <= 2 ^ Z.log2 b)%Z
          by (apply Z.pow_le_mono_r; lia).
        lia.
Qed.

Lemma round53_mono (a b : Z) : (a <= b)%Z -> (round53 a <= round53 b)%Z.
Proof.
  intros Hab.
  destruct (Z_le_gt_dec 0%Z a) as [Ha|Ha]; [apply round53_mono_nonneg; lia|].
  destruct (Z_le_gt_dec b 0%Z) as [Hb|Hb].
  - pose proof (round53_mono_nonneg (- b) (- a) ltac:(lia) ltac:(lia)) as H.
    rewrite !round53_opp in H. lia.
  - pose proof (round53_mono_nonneg 0%Z (- a) ltac:(lia) ltac:(lia)) as H1.
    pose proof (round53_mono_nonneg 0%Z b ltac:(lia) ltac:(lia)) as H2.
    rewrite round53_opp in H1. change (round53 0%Z) with 0%Z in *. lia.
Qed.

Lemma Zle_Qle_iff (x y : Z) : (x <= y)%Z <-> (inject_Z x <= inject_Z y)%Q.
Proof. rewrite Zle_Qle. reflexivity. Qed.

Lemma float_exact (x : Number) : exact x -> float x = value x.
Proof.
  destruct x as [z|q]; simpl; [|reflexivity].
  intros Hz. rewrite round53_exact by exact Hz. reflexivity.
Qed.

(** Whatever the kinds of the two numbers, a comparison that holds also
    holds between the floats. *)
Lemma num_leb_float (a b : Number) :
  num_leb a b = true -> (float a <= float b)%Q.
Proof.
  destruct a as [x|p], b as [y|q]; simpl; try apply Qle_bool_iff.
  intros Hle. apply Z.leb_le in Hle.
  apply (proj1 (Zle_Qle_iff _ _)), round53_mono, Hle.
Qed.

(** It is the comparison of the floats as soon as one side is a float. *)
Lemma num_leb_mixed (a b : Number) :
  ~ (exists x y, a = Int x /\ b = Int y) ->
  (num_leb a b = true <-> (float a <= float b)%Q).
Proof.
  destruct a as [x|p], b as [y|q]; simpl; intros Hk;
    try apply Qle_bool_iff.
  destruct Hk. eauto.
Qed.

(** It is the comparison of the numbers themselves for two integers, and
    for any two numbers that float64 holds as they are. *)
Lemma num_leb_value (a b : Number) :
  (exists x y, a = Int x /\ b = Int y) \/ (exact a /\ exact b) ->
  (num_leb a b = true <-> (value a <= value b)%Q).
Proof.
  intros [(x & y & -> & ->)|[Ha Hb]].
  - simpl. rewrite Z.leb_le. apply Zle_Qle_iff.
  - destruct a as [x|p], b as [y|q].
    + simpl. rewrite Z.leb_le. apply Zle_Qle_iff.
    + rewrite num_leb_mixed by (intros (? & ? & ? & ?); discriminate).
      rewrite !float_exact by assumption. reflexivity.
    + rewrite num_leb_mixed by (intros (? & ? & ? & ?); discriminate).
      rewrite !float_exact by assumption. reflexivity.
    + rewrite num_leb_mixed by (intros (? & ? & ? & ?); discriminate).
      reflexivity.
Qed.

End NumberFacts.

(** ** Boolean indexing and the cleanup *)

Lemma getitem_mask_map {A} (f : A -> bool) (l : list A) :
  getitem_mask l (map f l) = filter (fun x => f x = true) l.
Proof.
  induction l as [|x l IH]; simpl; [reflexivity|].
  rewrite filter_cons, IH.
  destruct (f x); case_decide; congruence.
Qed.

Lemma is_nan_false {A} (x : option A) : is_nan x = false <-> is_Some x.
Proof.
  destruct x; simpl; split; intros H; try reflexivity; try discriminate.
  - eauto.
  - destruct H; discriminate.
Qed.

Lemma cleanup_as_filter (raw : DataFrame) :
  cleanup raw = filter key_columns_present raw.
Proof.
  unfold cleanup, dropna. rewrite getitem_mask_map.
  apply list_filter_iff. intros r. unfold key_columns_present. simpl.
  rewrite negb_true_iff, !orb_false_iff, !is_nan_false. tauto.
Qed.

Lemma elem_of_cleanup (raw : DataFrame) (r : Row) :
  r ∈ cleanup raw <-> r ∈ raw /\ key_columns_present r.
Proof. rewrite cleanup_as_filter, list_elem_of_filter. tauto. Qed.

Lemma cleanup_present (raw : DataFrame) :
  Forall key_columns_present (cleanup raw).
Proof.
  apply Forall_forall. intros r Hr. apply elem_of_cleanup in Hr. tauto.
Qed.

Lemma filter_all {A} (P : A -> Prop) `{forall x, Decision (P x)} (l : list A) :
  (forall x, x ∈ l -> P x) -> filter P l = l.
Proof.
  induction l as [|x l IH]; intros Hall; [reflexivity|].
  rewrite filter_cons_True by (apply Hall; left).
  f_equal. apply IH. intros y Hy. apply Hall. right. exact Hy.
Qed.

Lemma filter_none {A} (P : A -> Prop) `{forall x, Decision (P x)} (l : list A) :
  (forall x, x ∈ l -> ~ P x) -> filter P l = [].
Proof.
  induction l as [|x l IH]; intros Hall; [reflexivity|].
  rewrite filter_cons_False by (apply Hall; left).
  apply IH. intros y Hy. apply Hall. right. exact Hy.
Qed.


(** ** The load step *)

(** C7: the cleanup keeps exactly the records whose site, outcome and
    payload are all present, in the order of the raw table: the result is
    the raw table filtered by that condition, a subsequence of it, and a
    record is in it if and only if it is in the raw table with none of the
    three values missing. *)
Theorem cleanup_drops_exactly_missing (raw : DataFrame) :
  cleanup raw = filter key_columns_present raw /\
  sublist (cleanup raw) raw /\
  (forall r, r ∈ cleanup raw <-> r ∈ raw /\ key_columns_present r) /\
  (forall r, r ∈ raw -> r ∉ cleanup raw ->
     Launch_Site r = None \/ class r = None \/ Payload_Mass r = None).
Proof.
  split; [apply cleanup_as_filter|].
  split; [rewrite cleanup_as_filter; apply sublist_filter|].
  split; [intros r; apply elem_of_cleanup|].
  intros r Hin Hout.
  destruct (Launch_Site r) as [s|] eqn:Hs; [|tauto].
  destruct (class r) as [c|] eqn:Hc; [|tauto].
  destruct (Payload_Mass r) as [q|] eqn:Hq; [|tauto].
  exfalso. apply Hout, elem_of_cleanup. split; [exact Hin|].
  unfold key_columns_present. rewrite Hs, Hc, Hq. eauto.
Qed.

Lemma cleanup_drops_exactly_missing_witness :
  Launch_Site (mkRow (Some "VAFB SLC-4E") None (Some (Float (500 # 1))) None) = None \/
  class (mkRow (Some "VAFB SLC-4E") None (Some (Float (500 # 1))) None) = None \/
  Payload_Mass (mkRow (Some "VAFB SLC-4E") None (Some (Float (500 # 1))) None) = None.
Proof.
  apply (proj2 (proj2 (proj2 (cleanup_drops_exactly_missing
           [ mkRow (Some "VAFB SLC-4E") None (Some (Float (500 # 1))) None ])))).
  - left.
  - vm_compute. intros Hin. inversion Hin.
Defined.

(** C8, as stated, fails: a file whose payload cell is negative is accepted
    and its record is in the table after the load. *)
Lemma negative_payload_is_loaded :
  ~ (forall r, r ∈ cleanup negative_payload_file ->
       exists p, Payload_Mass r = Some p /\ (0 <= value p)%Q).
Proof.
  intros H.
  destruct (H (mkRow (Some "CCAFS LC-40") (Some 0%Z) (Some (Float (-5 # 1)))
                     (Some "v1.0")))
    as (p & Hp & Hle).
  - vm_compute. left.
  - simpl in Hp. injection Hp as <-. vm_compute in Hle. apply Hle. reflexivity.
Qed.

(** C8, amended: after the load every record has a payload mass, the one
    the file gives.  No sign check is made: a record with a negative
    payload and nothing missing is loaded like any other, so the payload
    masses of the table are non-negative when those of the file are. *)
Theorem loaded_payload_present (raw : DataFrame) :
  (forall r, r ∈ cleanup raw ->
     r ∈ raw /\ exists p, Payload_Mass r = Some p) /\
  (forall r p, r ∈ raw -> key_columns_present r ->
     Payload_Mass r = Some p -> (value p < 0)%Q -> r ∈ cleanup raw) /\
  ((forall r p, r ∈ raw -> Payload_Mass r = Some p -> (0 <= value p)%Q) ->
   forall r p, r ∈ cleanup raw -> Payload_Mass r = Some p ->
     (0 <= value p)%Q).
Proof.
  split; [|split].
  - intros r Hr. apply elem_of_cleanup in Hr as [Hin (_ & _ & Hp)].
    split; [exact Hin | exact Hp].
  - intros r p Hr Hkey _ _. apply elem_of_cleanup. tauto.
  - intros Hraw r p Hr Hp. apply elem_of_cleanup in Hr as [Hin _].
    exact (Hraw r p Hin Hp).
Qed.

Lemma loaded_payload_present_witness :
  mkRow (Some "CCAFS LC-40") (Some 0%Z) (Some (Float (-5 # 1))) (Some "v1.0")
    ∈ cleanup negative_payload_file /\
  (0 <= value (Float (2500 # 1)))%Q.
Proof.
  split.
  - apply (proj1 (proj2 (loaded_payload_present negative_payload_file))
             _ (Float (-5 # 1))).
    + left.
    + unfold key_columns_present. simpl. eauto.
    + reflexivity.
    + reflexivity.
  - apply (proj2 (proj2 (loaded_payload_present
             [ mkRow (Some "KSC LC-39A") (Some 1%Z) (Some (Float (2500 # 1))) None;
               mkRow (Some "KSC LC-39A") None (Some (Float (100 # 1))) None ]))
             ltac:(intros r p Hr Hp; apply list_elem_of_In in Hr; simpl in Hr;
                   destruct Hr as [<-|[<-|[]]]; simpl in Hp;
                   injection Hp as <-; discriminate)
             (mkRow (Some "KSC LC-39A") (Some 1%Z) (Some (Float (2500 # 1))) None)).
    + vm_compute. left.
    + reflexivity.
Defined.

Lemma missing_columns_nil (subset columns : list string) :
  missing_columns subset columns = [] <->
  forall c, c ∈ subset -> c ∈ columns.
Proof.
  unfold missing_columns. split.
  - intros Hnil c Hc. destruct (decide (c ∈ columns)) as [Hin|Hout];
      [exact Hin|].
    assert (Hf : c ∈ filter (fun c => c ∉ columns) subset)
      by (apply list_elem_of_filter; tauto).
    rewrite Hnil in Hf. inversion Hf.
  - intros Hall. apply filter_none. intros c Hc Hout. exact (Hout (Hall c Hc)).
Qed.

(** C6, as stated, fails: the default path names a file that exists and has
    no text; the reader raises its own error, so no table is loaded although
    the file is there.  Nor is a table loaded from a file that exists and
    has records but no outcome column: the cleanup raises [KeyError]. *)
Lemma load_existing_empty_file :
  empty_file_fs !! CSV_PATH ∅ = Some (RegularFile EmptyString) /\
  os_path_exists empty_file_fs (CSV_PATH ∅) = true /\
  load t4_reader ∅ empty_file_fs = Raise EmptyDataError /\
  load no_class_reader ∅
       {[ "spacex_launch_dash.csv" := RegularFile no_class_csv ]}
    = Raise (KeyError ["class"]).
Proof. repeat split; vm_compute; reflexivity. Qed.

(** C6, amended: the load stops with the script's own [FileNotFoundError]
    (the spec's DataUnavailable) if and only if nothing exists at the
    configured path.  When a file is there, the CSV reader gives a frame
    for its text and the frame has the columns of site, outcome and
    payload, the table is loaded: it is the cleaned frame.  When the frame
    lacks one of the three columns the load stops with [KeyError]. *)
Theorem load_fails_iff_absent (parse_csv : string -> Parse)
  (environ : gmap string string) (fs : gmap string FsNode) :
  (load parse_csv environ fs
     = Raise (FileNotFoundError (not_found_msg (CSV_PATH environ)))
   <-> fs !! CSV_PATH environ = None) /\
  (forall msg, load parse_csv environ fs = Raise (FileNotFoundError msg) ->
     fs !! CSV_PATH environ = None) /\
  (forall txt columns rows,
     fs !! CSV_PATH environ = Some (RegularFile txt) -> blank txt = false ->
     parse_csv txt = parsed columns rows ->
     (forall c, c ∈ key_columns -> c ∈ columns) ->
     load parse_csv environ fs = Ok (cleanup rows)) /\
  (forall txt columns rows,
     fs !! CSV_PATH environ = Some (RegularFile txt) -> blank txt = false ->
     parse_csv txt = parsed columns rows ->
     missing_columns key_columns columns <> [] ->
     load parse_csv environ fs
       = Raise (KeyError (missing_columns key_columns columns))).
Proof.
  assert (Hmsg : forall msg,
             load parse_csv environ fs = Raise (FileNotFoundError msg) ->
             fs !! CSV_PATH environ = None).
  { intros msg. unfold load, os_path_exists, pd_read_csv.
    destruct (fs !! CSV_PATH environ) as [[txt|]|] eqn:Hfs; try discriminate;
      [|reflexivity].
    destruct (blank txt); [discriminate|].
    destruct (parse_csv txt) as [columns rows|[]]; try discriminate.
    destruct (missing_columns key_columns columns); discriminate. }
  split; [split; [apply Hmsg|]|split; [exact Hmsg|split]].
  - intros Hfs. unfold load, os_path_exists. rewrite Hfs. reflexivity.
  - intros txt columns rows Hfs Htxt Hparse Hkeys.
    unfold load, os_path_exists, pd_read_csv. rewrite Hfs, Htxt, Hparse.
    rewrite (proj2 (missing_columns_nil _ _) Hkeys). reflexivity.
  - intros txt columns rows Hfs Htxt Hparse Hmiss.
    unfold load, os_path_exists, pd_read_csv. rewrite Hfs, Htxt, Hparse.
    destruct (missing_columns key_columns columns); [congruence|reflexivity].
Qed.

Lemma load_fails_iff_absent_witness :
  load t4_reader {[ "SPACEX_DASH_CSV" := "launches.csv" ]}
       {[ "launches.csv" := RegularFile t4_csv ]}
  = Ok (cleanup t4).
Proof.
  apply (proj1 (proj2 (proj2 (load_fails_iff_absent t4_reader
                  {[ "SPACEX_DASH_CSV" := "launches.csv" ]}
                  {[ "launches.csv" := RegularFile t4_csv ]})))
           t4_csv full_header t4).
  - vm_compute. reflexivity.
  - reflexivity.
  - reflexivity.
  - intros c Hc. apply list_elem_of_In in Hc. apply list_elem_of_In.
    simpl in *. tauto.
Defined.

(** ** Grouping and counting *)

Lemma filter_ext_elem {A} (P Q : A -> Prop) `{forall x, Decision (P x)}
  `{forall x, Decision (Q x)} (l : list A) :
  (forall x, x ∈ l -> P x <-> Q x) -> filter P l = filter Q l.
Proof.
  induction l as [|x l IH]; intros Hext; [reflexivity|].
  rewrite !filter_cons.
  rewrite IH by (intros y Hy; apply Hext; right; exact Hy).
  assert (Hx : P x <-> Q x) by (apply Hext; left).
  repeat case_decide; tauto.
Qed.

Lemma length_filter_or {A} (P Q : A -> Prop) `{forall x, Decision (P x)}
  `{forall x, Decision (Q x)} (l : list A) :
  (forall x, P x -> Q x -> False) ->
  length (filter (fun x => P x \/ Q x) l)
    = length (filter P l) + length (filter Q l).
Proof.
  intros Hdisj. induction l as [|x l IH]; [reflexivity|].
  rewrite !filter_cons. pose proof (Hdisj x).
  repeat case_decide; simpl; rewrite ?IH; try tauto; lia.
Qed.

Lemma positive_length_elem {A} (l : list A) :
  0 < length l <-> exists x, x ∈ l.
Proof.
  destruct l as [|x l]; simpl; split.
  - lia.
  - intros [x Hx]. inversion Hx.
  - intros _. exists x. left.
  - lia.
Qed.

Section GroupByFacts.
Context {K : Type} `{EqDecision K}.
Context (R : relation K) `{forall x y, Decision (R x y)}.
Context (key : Row -> option K) (notna : Row -> bool).

Lemma elem_of_unique (l : list K) (x : K) : x ∈ unique l <-> x ∈ l.
Proof.
  induction l as [|y l IH]; simpl; [reflexivity|].
  rewrite !elem_of_cons, list_elem_of_filter, IH.
  destruct (decide (x = y)); tauto.
Qed.

Lemma NoDup_unique (l : list K) : NoDup (unique l).
Proof.
  induction l as [|y l IH]; simpl; [constructor|].
  constructor; [|apply NoDup_filter, IH].
  rewrite list_elem_of_filter. tauto.
Qed.

Lemma elem_of_group_keys (df : DataFrame) (k : K) :
  k ∈ group_keys R key df <-> exists r, r ∈ df /\ key r = Some k.
Proof.
  unfold group_keys.
  rewrite merge_sort_Permutation, elem_of_unique. apply list_elem_of_omap.
Qed.

Lemma NoDup_group_keys (df : DataFrame) : NoDup (group_keys R key df).
Proof.
  unfold group_keys. rewrite merge_sort_Permutation. apply NoDup_unique.
Qed.

Lemma groupby_count_counted (df : DataFrame) :
  groupby_count R key notna df
    = map (fun k => (k, counted key notna k df)) (group_keys R key df).
Proof.
  unfold groupby_count, counted, group. apply map_ext. intros k.
  rewrite list_filter_filter. f_equal. f_equal.
  apply list_filter_iff. intros r. tauto.
Qed.

Lemma elem_of_groupby_count (df : DataFrame) (k : K) (n : nat) :
  (k, n) ∈ groupby_count R key notna df <->
  (exists r, r ∈ df /\ key r = Some k) /\ n = counted key notna k df.
Proof.
  rewrite groupby_count_counted, list_elem_of_fmap, <- elem_of_group_keys.
  split.
  - intros (k' & Heq & Hk'). injection Heq as -> ->. tauto.
  - intros [Hk ->]. exists k. tauto.
Qed.

Lemma groupby_count_keys (df : DataFrame) :
  map fst (groupby_count R key notna df) = group_keys R key df.
Proof.
  rewrite groupby_count_counted, map_map. simpl. apply map_id.
Qed.

Lemma sum_counted (ks : list K) (df : DataFrame) :
  NoDup ks ->
  sum_list (map (fun k => counted key notna k df) ks)
    = length (filter (counted_in key notna ks) df).
Proof.
  induction 1 as [|k ks Hk Hnd IH]; simpl.
  - symmetry. rewrite filter_none; [reflexivity|].
    intros r _ [(k & _ & Hin) _]. inversion Hin.
  - rewrite IH. unfold counted.
    rewrite <- length_filter_or.
    + f_equal. apply list_filter_iff. intros r. unfold counted_in. split.
      * intros [[Hkey Hn]|[(k' & Hk' & Hin) Hn]].
        -- split; [|exact Hn]. exists k. split; [exact Hkey|left].
        -- split; [|exact Hn]. exists k'. split; [exact Hk'|right; exact Hin].
      * intros [(k' & Hk' & Hin) Hn]. apply elem_of_cons in Hin as [->|Hin].
        -- left. tauto.
        -- right. eauto.
    + intros r [Hkey _] [(k' & Hk' & Hin) _]. congruence.
Qed.

(** The counts of all the groups add up to the number of rows that have a
    key and a value to count. *)
Lemma sum_groupby_count (df : DataFrame) :
  sum_list (map snd (groupby_count R key notna df))
    = length (filter (fun r => is_Some (key r) /\ notna r = true) df).
Proof.
  rewrite groupby_count_counted, map_map. simpl.
  rewrite sum_counted by apply NoDup_group_keys.
  f_equal. apply filter_ext_elem. intros r Hr. unfold counted_in.
  split.
  - intros [(k & Hk & _) Hn]. rewrite Hk. eauto.
  - intros [[k Hk] Hn]. split; [|exact Hn]. exists k. split; [exact Hk|].
    apply elem_of_group_keys. eauto.
Qed.

End GroupByFacts.

(** ** The Correlation View *)

Lemma series_and_map {A} (f g : A -> bool) (l : list A) :
  series_and (map f l) (map g l) = map (fun x => f x && g x) l.
Proof.
  unfold series_and. induction l as [|x l IH]; simpl; [reflexivity|].
  rewrite IH. reflexivity.
Qed.

Lemma ge_scalar_true (x v : option Number) :
  ge_scalar x v = true <-> num_le v x.
Proof.
  destruct x as [a|], v as [b|]; simpl; try (split; [discriminate|tauto]).
  reflexivity.
Qed.

Lemma le_scalar_true (x v : option Number) :
  le_scalar x v = true <-> num_le x v.
Proof.
  destruct x as [a|], v as [b|]; simpl; try (split; [discriminate|tauto]).
  reflexivity.
Qed.

Lemma eq_scalar_true {A} `{EqDecision A} (x : option A) (v : A) :
  eq_scalar x v = true <-> x = Some v.
Proof. unfold eq_scalar. apply bool_decide_eq_true. Qed.

Lemma filtered_as_filter (df : DataFrame) (sel : string)
  (lo hi : option Number) :
  filtered df sel (lo, hi) = filter (kept sel lo hi) df.
Proof.
  unfold filtered, mask. rewrite series_and_map.
  destruct (bool_decide (sel <> "ALL")) eqn:Hsel.
  - apply bool_decide_eq_true in Hsel.
    rewrite series_and_map, getitem_mask_map. apply list_filter_iff.
    intros r. unfold kept.
    rewrite !andb_true_iff, ge_scalar_true, le_scalar_true, eq_scalar_true.
    tauto.
  - apply bool_decide_eq_false in Hsel.
    assert (sel = "ALL") as -> by (destruct (decide (sel = "ALL")); tauto).
    rewrite getitem_mask_map. apply list_filter_iff.
    intros r. unfold kept.
    rewrite !andb_true_iff, ge_scalar_true, le_scalar_true. tauto.
Qed.

(** The comparisons of the view are the comparisons of the numbers
    themselves when float64 holds the payload and the bounds as they
    are. *)
Lemma num_le_value (a b : option Number) :
  (forall x, a = Some x -> exact x) -> (forall y, b = Some y -> exact y) ->
  (num_le a b <-> value_le a b).
Proof.
  destruct a as [x|], b as [y|]; simpl; try tauto.
  intros Hx Hy. apply num_leb_value. right. split; auto.
Qed.

(** *** What the scatter draws *)

Lemma unique_constant {K} `{EqDecision K} (l : list K) (c : K) :
  (forall x, x ∈ l -> x = c) -> l = [] \/ unique l = [c].
Proof.
  destruct l as [|x l]; [tauto|]. intros Hall. right. simpl.
  rewrite (Hall x) by left. f_equal. apply filter_none.
  intros y Hy Hne. apply (proj1 (elem_of_unique _ _)) in Hy.
  apply Hne, Hall. right. exact Hy.
Qed.

Lemma concat_groups_perm {K} `{EqDecision K} (key : Row -> option K)
  (ks : list K) (df : DataFrame) :
  NoDup ks ->
  concat (map (fun k => filter (fun r => key r = Some k) df) ks)
    ≡ₚ filter (counted_in key (fun _ => true) ks) df.
Proof.
  induction 1 as [|k ks Hk Hnd IH]; simpl.
  - rewrite filter_none; [reflexivity|].
    intros r _ [(k & _ & Hin) _]. inversion Hin.
  - rewrite IH. clear IH. induction df as [|r df IHdf]; [reflexivity|].
    rewrite !filter_cons.
    assert (Hiff : counted_in key (fun _ => true) (k :: ks) r <->
                   key r = Some k \/ counted_in key (fun _ => true) ks r).
    { unfold counted_in. split.
      - intros [(k' & Hk' & Hin) _]. apply elem_of_cons in Hin as [->|Hin].
        + tauto.
        + right. eauto.
      - intros [Hkey|[(k' & Hk' & Hin) _]].
        + split; [|reflexivity]. exists k. split; [exact Hkey|left].
        + split; [|reflexivity]. exists k'. split; [exact Hk'|right; exact Hin]. }
    assert (Hdisj : key r = Some k -> counted_in key (fun _ => true) ks r ->
                    False).
    { intros Hkey [(k' & Hk' & Hin) _]. congruence. }
    repeat case_decide; try tauto;
      first [ exact IHdf
            | simpl; constructor; exact IHdf
            | rewrite <- Permutation_middle; constructor; exact IHdf ].
Qed.

Lemma NoDup_omap_id {K} (l : list (option K)) : NoDup l -> NoDup (omap id l).
Proof.
  induction 1 as [|x l Hx Hnd IH]; simpl; [constructor|].
  destruct x as [k|]; simpl; [|exact IH].
  constructor; [|exact IH].
  intros Hin. apply list_elem_of_omap in Hin as (y & Hy & Heq).
  simpl in Heq. subst y. exact (Hx Hy).
Qed.

Lemma elem_of_colours (df : DataFrame) (c : option string) :
  c ∈ unique (map Booster_Version_Category df) <->
  exists r, r ∈ df /\ Booster_Version_Category r = c.
Proof.
  rewrite elem_of_unique, list_elem_of_fmap. split.
  - intros (r & -> & Hr). eauto.
  - intros (r & Hr & <-). eauto.
Qed.

(** With one colour in the frame, a missing one included, the frame is
    drawn whole. *)
Lemma scatter_traces_one_colour (df : DataFrame) :
  (forall r r', r ∈ df -> r' ∈ df ->
     Booster_Version_Category r = Booster_Version_Category r') ->
  concat (scatter_traces df) = df.
Proof.
  intros Hsame. destruct df as [|r0 df]; [reflexivity|].
  destruct (unique_constant (map Booster_Version_Category (r0 :: df))
              (Booster_Version_Category r0)) as [Hnil|Hone].
  - intros c Hc. apply list_elem_of_fmap in Hc as (r & -> & Hr).
    apply Hsame; [exact Hr | left].
  - discriminate.
  - unfold scatter_traces. rewrite Hone. simpl. rewrite app_nil_r.
    reflexivity.
Qed.

(** With two colours or more, the rows drawn are the rows that have a
    colour. *)
Lemma scatter_traces_colours (df : DataFrame) (r r' : Row) :
  r ∈ df -> r' ∈ df ->
  Booster_Version_Category r <> Booster_Version_Category r' ->
  concat (scatter_traces df)
    ≡ₚ filter (fun r => is_Some (Booster_Version_Category r)) df.
Proof.
  intros Hr Hr' Hne.
  assert (Hbranch : scatter_traces df
            = map (fun b => filter
                     (fun r => Booster_Version_Category r = Some b) df)
                  (omap id (unique (map Booster_Version_Category df)))).
  { unfold scatter_traces.
    destruct (unique (map Booster_Version_Category df))
      as [|c [|c' cs]] eqn:Hu; try reflexivity.
    exfalso. apply Hne.
    assert (H1 : Booster_Version_Category r ∈ [c])
      by (rewrite <- Hu; apply elem_of_colours; eauto).
    assert (H2 : Booster_Version_Category r' ∈ [c])
      by (rewrite <- Hu; apply elem_of_colours; eauto).
    apply list_elem_of_singleton in H1, H2. congruence. }
  rewrite Hbranch, concat_groups_perm by apply NoDup_omap_id, NoDup_unique.
  erewrite filter_ext_elem; [reflexivity|].
  intros x Hx. unfold counted_in. split.
  - intros [(b & Hb & _) _]. rewrite Hb. eauto.
  - intros [b Hb]. split; [|reflexivity]. exists b. split; [exact Hb|].
    apply list_elem_of_omap. exists (Some b). split; [|reflexivity].
    apply elem_of_colours. eauto.
Qed.

Lemma colours_cases (df : DataFrame) :
  (forall r1 r2, r1 ∈ df -> r2 ∈ df ->
     Booster_Version_Category r1 = Booster_Version_Category r2) \/
  (exists r1 r2, r1 ∈ df /\ r2 ∈ df /\
     Booster_Version_Category r1 <> Booster_Version_Category r2).
Proof.
  pose proof (NoDup_unique (map Booster_Version_Category df)) as Hnd.
  pose proof (elem_of_colours df) as Hcol.
  destruct (unique (map Booster_Version_Category df)) as [|c [|c' cs]].
  - left. intros r1 r2 H1 _. exfalso.
    assert (H : Booster_Version_Category r1 ∈ @nil (option string))
      by (apply Hcol; eauto).
    inversion H.
  - left. intros r1 r2 H1 H2.
    assert (Ha : Booster_Version_Category r1 ∈ [c]) by (apply Hcol; eauto).
    assert (Hb : Booster_Version_Category r2 ∈ [c]) by (apply Hcol; eauto).
    apply list_elem_of_singleton in Ha, Hb. congruence.
  - right.
    destruct (proj1 (Hcol c) ltac:(left)) as (r1 & H1 & E1).
    destruct (proj1 (Hcol c') ltac:(right; left)) as (r2 & H2 & E2).
    exists r1, r2. split; [exact H1|]. split; [exact H2|].
    rewrite E1, E2. intros ->. apply NoDup_cons in Hnd as [Hnot _].
    apply Hnot. left.
Qed.

(** The rows a scatter draws: the rows of its frame that have a colour,
    and every row when the frame has one colour only. *)
Lemma elem_of_scatter_rows (df : DataFrame) (r : Row) :
  r ∈ concat (scatter_traces df) <->
  r ∈ df /\
  (is_Some (Booster_Version_Category r) \/
   forall r', r' ∈ df ->
     Booster_Version_Category r' = Booster_Version_Category r).
Proof.
  destruct (colours_cases df) as [Hsame|(r1 & r2 & H1 & H2 & Hne)].
  - rewrite scatter_traces_one_colour by exact Hsame. split; [|tauto].
    intros Hr. split; [exact Hr|]. right. intros r' Hr'. auto.
  - rewrite (scatter_traces_colours df r1 r2 H1 H2 Hne).
    rewrite list_elem_of_filter. split; [tauto|].
    intros [Hr [Hs|Hall]]; [tauto|].
    exfalso. apply Hne. rewrite (Hall r1 H1), (Hall r2 H2). reflexivity.
Qed.

Lemma scatter_rows_update_scatter (df : DataFrame) (sel : string)
  (rng : option Number * option Number) :
  scatter_rows (update_scatter df sel rng)
    = concat (scatter_traces (filtered df sel rng)).
Proof. reflexivity. Qed.

(** C2, as stated, fails twice.  A payload of [2^53 + 1] in a column of
    integers is kept under the float upper bound [2^53], which it exceeds:
    the comparison is made in float64.  And on the four-record table, ALL
    and a range that holds every payload keep the record that has no
    booster category, but the figure has no point for it. *)
Lemma update_scatter_not_exact :
  (mkRow (Some "A") (Some 1%Z) (Some (Int (2 ^ 53 + 1))) (Some "FT")
     ∈ filtered big_payload_table "ALL"
         (Some (Float 2), Some (Float (inject_Z (2 ^ 53)))) /\
   ~ (value (Int (2 ^ 53 + 1)) <= value (Float (inject_Z (2 ^ 53))))%Q) /\
  (mkRow (Some "B") (Some 1%Z) (Some (Float (5300 # 1))) None
     ∈ filtered t4 "ALL" (Some (Float 0), Some (Float (6000 # 1))) /\
   (Some (Float (5300 # 1)), Some 1%Z)
     ∉ scatter_points
         (update_scatter t4 "ALL" (Some (Float 0), Some (Float (6000 # 1))))).
Proof.
  split; split.
  - vm_compute. left.
  - vm_compute. intros H. apply H. reflexivity.
  - vm_compute. do 3 right. left.
  - vm_compute. intros H. apply list_elem_of_In in H. simpl in H.
    intuition discriminate.
Qed.

(** C2, amended: the Correlation View keeps, in table order, exactly the
    records with [lo <= payload <= hi], both bounds included, as pandas
    compares them: two integers as they are, and otherwise as floats, an
    integer being rounded to float64 first; for a site other than ALL the
    record must also have that site.  This is the comparison of the numbers
    themselves when the payload and the bounds are floats or integers of
    magnitude at most [2^53].  The frame handed to the plot is the kept
    records.  The points drawn are (payload, outcome) pairs of kept
    records: of every kept record when the kept records have one booster
    value only (a missing one included), and otherwise of the kept records
    that have a booster category. *)
Theorem update_scatter_filter (df : DataFrame) (sel : string)
  (lo hi : option Number) :
  filtered df sel (lo, hi) = filter (kept sel lo hi) df /\
  (forall r, r ∈ filtered df sel (lo, hi) <->
     r ∈ df /\ num_le lo (Payload_Mass r) /\ num_le (Payload_Mass r) hi /\
     (sel = "ALL" \/ Launch_Site r = Some sel)) /\
  (forall r,
     (forall x, lo = Some x -> exact x) ->
     (forall x, hi = Some x -> exact x) ->
     (forall x, Payload_Mass r = Some x -> exact x) ->
     (kept sel lo hi r <->
      value_le lo (Payload_Mass r) /\ value_le (Payload_Mass r) hi /\
      (sel = "ALL" \/ Launch_Site r = Some sel))) /\
  scatter_frame (update_scatter df sel (lo, hi)) = filtered df sel (lo, hi) /\
  scatter_points (update_scatter df sel (lo, hi))
    = map (fun r => (Payload_Mass r, class r))
          (scatter_rows (update_scatter df sel (lo, hi))) /\
  (forall r, r ∈ scatter_rows (update_scatter df sel (lo, hi)) <->
     r ∈ filtered df sel (lo, hi) /\
     (is_Some (Booster_Version_Category r) \/
      forall r', r' ∈ filtered df sel (lo, hi) ->
        Booster_Version_Category r' = Booster_Version_Category r)) /\
  ((forall r r', r ∈ filtered df sel (lo, hi) ->
      r' ∈ filtered df sel (lo, hi) ->
      Booster_Version_Category r = Booster_Version_Category r') ->
   scatter_rows (update_scatter df sel (lo, hi)) = filtered df sel (lo, hi)) /\
  (forall r r', r ∈ filtered df sel (lo, hi) ->
     r' ∈ filtered df sel (lo, hi) ->
     Booster_Version_Category r <> Booster_Version_Category r' ->
     scatter_rows (update_scatter df sel (lo, hi))
       ≡ₚ filter (fun r => is_Some (Booster_Version_Category r))
                 (filtered df sel (lo, hi))).
Proof.
  split; [apply filtered_as_filter|].
  split.
  { intros r. rewrite filtered_as_filter, list_elem_of_filter.
    unfold kept. tauto. }
  split.
  { intros r Hlo Hhi Hp. unfold kept.
    rewrite (num_le_value lo (Payload_Mass r)) by assumption.
    rewrite (num_le_value (Payload_Mass r) hi) by assumption.
    reflexivity. }
  split; [reflexivity|]. split; [reflexivity|].
  rewrite scatter_rows_update_scatter.
  split; [intros r; apply elem_of_scatter_rows|].
  split; [apply scatter_traces_one_colour|].
  intros r r'. apply scatter_traces_colours.
Qed.

Lemma update_scatter_filter_witness :
  scatter_rows
    (update_scatter t4 "A" (Some (Float 0), Some (Float (6000 # 1))))
  ≡ₚ filter (fun r => is_Some (Booster_Version_Category r))
            (filtered t4 "A" (Some (Float 0), Some (Float (6000 # 1)))).
Proof.
  apply (proj2 (proj2 (proj2 (proj2 (proj2 (proj2 (proj2
           (update_scatter_filter t4 "A" (Some (Float 0))
              (Some (Float (6000 # 1))))))))))
           (mkRow (Some "A") (Some 1%Z) (Some (Float (500#1))) (Some "v1.0"))
           (mkRow (Some "A") (Some 0%Z) (Some (Float (1200#1))) (Some "v1.1"))).
  - vm_compute. left.
  - vm_compute. right. left.
  - discriminate.
Defined.

(** *** The observed bounds *)

Lemma Qle_bool_false (a b : Q) : Qle_bool a b = false -> (b <= a)%Q.
Proof.
  intros Hf. apply Qlt_le_weak, Qnot_le_lt. intros Hle.
  apply Qle_bool_iff in Hle. congruence.
Qed.

Lemma num_leb_false_float (a b : Number) :
  num_leb a b = false -> (float b <= float a)%Q.
Proof.
  destruct a as [x|p], b as [y|q]; simpl; try apply Qle_bool_false.
  intros Hle. apply Z.leb_gt in Hle.
  apply (proj1 (Zle_Qle_iff _ _)), round53_mono. lia.
Qed.

Lemma num_min_le_l (a b : Number) : (float (num_min a b) <= float a)%Q.
Proof.
  unfold num_min. destruct (num_leb a b) eqn:E;
    [apply Qle_refl | apply num_leb_false_float, E].
Qed.

Lemma num_min_le_r (a b : Number) : (float (num_min a b) <= float b)%Q.
Proof.
  unfold num_min. destruct (num_leb a b) eqn:E;
    [apply num_leb_float, E | apply Qle_refl].
Qed.

Lemma num_max_ge_l (a b : Number) : (float a <= float (num_max a b))%Q.
Proof.
  unfold num_max. destruct (num_leb a b) eqn:E;
    [apply num_leb_float, E | apply Qle_refl].
Qed.

Lemma num_max_ge_r (a b : Number) : (float b <= float (num_max a b))%Q.
Proof.
  unfold num_max. destruct (num_leb a b) eqn:E;
    [apply Qle_refl | apply num_leb_false_float, E].
Qed.

Lemma skipna_fold_cons (f : Number -> Number -> Number) (c : option Number)
  (s : list (option Number)) :
  skipna_fold f (c :: s) =
    match c, skipna_fold f s with
    | Some a, Some b => Some (f a b)
    | Some a, None => Some a
    | None, acc => acc
    end.
Proof. unfold skipna_fold. simpl. destruct c; reflexivity. Qed.

Lemma series_min_le (s : list (option Number)) (x : Number) :
  Some x ∈ s -> exists m, series_min s = Some m /\ (float m <= float x)%Q.
Proof.
  unfold series_min. induction s as [|c s IH]; intros Hin.
  - inversion Hin.
  - rewrite skipna_fold_cons. apply elem_of_cons in Hin as [<-|Hin].
    + destruct (skipna_fold num_min s) as [b|].
      * eexists; split; [reflexivity | apply num_min_le_l].
      * eexists; split; [reflexivity | apply Qle_refl].
    + destruct (IH Hin) as (b & -> & Hb). destruct c as [a|].
      * eexists; split; [reflexivity|].
        eapply Qle_trans; [apply num_min_le_r | exact Hb].
      * eexists; split; [reflexivity | exact Hb].
Qed.

Lemma series_max_ge (s : list (option Number)) (x : Number) :
  Some x ∈ s -> exists m, series_max s = Some m /\ (float x <= float m)%Q.
Proof.
  unfold series_max. induction s as [|c s IH]; intros Hin.
  - inversion Hin.
  - rewrite skipna_fold_cons. apply elem_of_cons in Hin as [<-|Hin].
    + destruct (skipna_fold num_max s) as [b|].
      * eexists; split; [reflexivity | apply num_max_ge_l].
      * eexists; split; [reflexivity | apply Qle_refl].
    + destruct (IH Hin) as (b & -> & Hb). destruct c as [a|].
      * eexists; split; [reflexivity|].
        eapply Qle_trans; [exact Hb | apply num_max_ge_r].
      * eexists; split; [reflexivity | exact Hb].
Qed.

Lemma num_le_float_l (q : Q) (p : Number) :
  num_le (Some (Float q)) (Some p) <-> (q <= float p)%Q.
Proof. simpl. destruct p; apply Qle_bool_iff. Qed.

Lemma num_le_float_r (p : Number) (q : Q) :
  num_le (Some p) (Some (Float q)) <-> (float p <= q)%Q.
Proof. simpl. destruct p; apply Qle_bool_iff. Qed.

Lemma bounds_cover (df : DataFrame) (r : Row) :
  r ∈ df -> is_Some (Payload_Mass r) ->
  num_le (payload_min df) (Payload_Mass r) /\
  num_le (Payload_Mass r) (payload_max df).
Proof.
  intros Hr [p Hp]. unfold payload_min, payload_max.
  assert (Hin : Some p ∈ map Payload_Mass df).
  { rewrite <- Hp. apply (list_elem_of_fmap_2 Payload_Mass), Hr. }
  destruct (series_min_le _ _ Hin) as (m & -> & Hm).
  destruct (series_max_ge _ _ Hin) as (M & -> & HM).
  rewrite Hp. cbn [option_map]. rewrite num_le_float_l, num_le_float_r.
  split; assumption.
Qed.

(** C3: on every loaded table, the Correlation View filter with ALL and the
    range set to the observed payload bounds [[payload_min, payload_max]]
    gives the table back, unchanged. *)
Theorem full_range_all_sites_identity (raw : DataFrame) :
  filtered (cleanup raw) "ALL"
    (payload_min (cleanup raw), payload_max (cleanup raw)) = cleanup raw /\
  scatter_frame
    (update_scatter (cleanup raw) "ALL"
       (payload_min (cleanup raw), payload_max (cleanup raw))) = cleanup raw.
Proof.
  assert (H : filtered (cleanup raw) "ALL"
                (payload_min (cleanup raw), payload_max (cleanup raw))
              = cleanup raw).
  { rewrite filtered_as_filter. apply filter_all. intros r Hr.
    pose proof Hr as Hr'. apply elem_of_cleanup in Hr' as [_ (_ & _ & Hp)].
    destruct (bounds_cover _ _ Hr Hp) as [Hlo Hhi].
    unfold kept. tauto. }
  split; [exact H | exact H].
Qed.

Lemma round53_pos (z : Z) : (0 < z)%Z -> (0 < round53 z)%Z.
Proof.
  intros Hz. pose proof (round53_mono 1 z ltac:(lia)) as H.
  change (round53 1) with 1%Z in H. lia.
Qed.

Lemma float_pos (p : Number) : (0 < value p)%Q -> (0 < float p)%Q.
Proof.
  destruct p as [z|q]; simpl; [|tauto].
  intros Hz. change 0%Q with (inject_Z 0) in *.
  rewrite <- Zlt_Qlt in *. apply round53_pos, Hz.
Qed.

Lemma float_zero (b : Number) : (value b == 0)%Q -> (float b == 0)%Q.
Proof.
  destruct b as [z|q]; simpl; [|tauto].
  intros Hz. assert (z = 0%Z) as ->; [|reflexivity].
  unfold Qeq in Hz. simpl in Hz. lia.
Qed.

(** C4, as stated, fails: the range from 2 to the float [2^53] contains no
    observed payload of the table whose only payload is the integer
    [2^53 + 1], and yet the view is not empty. *)
Lemma out_of_range_not_empty :
  (forall r, r ∈ big_payload_table ->
     ~ (value_le (Some (Float 2)) (Payload_Mass r) /\
        value_le (Payload_Mass r) (Some (Float (inject_Z (2 ^ 53)))))) /\
  filtered big_payload_table "ALL"
    (Some (Float 2), Some (Float (inject_Z (2 ^ 53)))) <> [] /\
  scatter_points
    (update_scatter big_payload_table "ALL"
       (Some (Float 2), Some (Float (inject_Z (2 ^ 53))))) <> [].
Proof.
  split; [|split].
  - intros r Hr. apply list_elem_of_In in Hr. simpl in Hr.
    destruct Hr as [<-|[]]. simpl. intros [_ H]. vm_compute in H.
    apply H. reflexivity.
  - vm_compute. discriminate.
  - vm_compute. discriminate.
Qed.

(** C4, amended: a range that no observed payload meets, under the
    comparison the view makes (two integers as they are, otherwise as
    floats, an integer rounded to float64 first), leaves the Correlation
    View empty, whatever the site.  The comparison is the one of the
    numbers themselves when the bounds and the payloads are floats or
    integers of magnitude at most [2^53].  In particular the range
    [[0, 0]] leaves the view empty when every payload is above 0. *)
Theorem out_of_range_is_empty (df : DataFrame) (sel : string) :
  (forall lo hi,
     (forall r, r ∈ df ->
        ~ (num_le lo (Payload_Mass r) /\ num_le (Payload_Mass r) hi)) ->
     filtered df sel (lo, hi) = [] /\
     scatter_points (update_scatter df sel (lo, hi)) = []) /\
  (forall lo hi,
     (forall x, lo = Some x -> exact x) ->
     (forall x, hi = Some x -> exact x) ->
     (forall r x, r ∈ df -> Payload_Mass r = Some x -> exact x) ->
     (forall r, r ∈ df ->
        ~ (value_le lo (Payload_Mass r) /\ value_le (Payload_Mass r) hi)) ->
     filtered df sel (lo, hi) = [] /\
     scatter_points (update_scatter df sel (lo, hi)) = []) /\
  ((forall r p, r ∈ df -> Payload_Mass r = Some p -> (0 < value p)%Q) ->
   forall lo hi, (value hi == 0)%Q ->
     filtered df sel (lo, Some hi) = [] /\
     scatter_points (update_scatter df sel (lo, Some hi)) = []).
Proof.
  assert (Hgen : forall lo hi,
     (forall r, r ∈ df ->
        ~ (num_le lo (Payload_Mass r) /\ num_le (Payload_Mass r) hi)) ->
     filtered df sel (lo, hi) = [] /\
     scatter_points (update_scatter df sel (lo, hi)) = []).
  { intros lo hi Hout.
    assert (H : filtered df sel (lo, hi) = []).
    { rewrite filtered_as_filter. apply filter_none.
      intros r Hr Hk. apply (Hout r Hr). unfold kept in Hk. tauto. }
    split; [exact H|].
    unfold scatter_points. rewrite scatter_rows_update_scatter, H.
    reflexivity. }
  split; [exact Hgen|]. split.
  - intros lo hi Hlo Hhi Hp Hout. apply Hgen. intros r Hr.
    rewrite (num_le_value lo (Payload_Mass r)),
            (num_le_value (Payload_Mass r) hi); eauto.
  - intros Hpos lo hi Hzero. apply Hgen. intros r Hr [_ Hhi].
    destruct (Payload_Mass r) as [p|] eqn:Hp; simpl in Hhi; [|exact Hhi].
    apply num_leb_float in Hhi.
    pose proof (float_pos p (Hpos r p Hr Hp)) as Hfp.
    rewrite (float_zero hi Hzero) in Hhi.
    exact (Qlt_not_le _ _ Hfp Hhi).
Qed.

Lemma out_of_range_is_empty_witness :
  filtered t4 "ALL" (Some (Int 0), Some (Int 0)) = [] /\
  scatter_points (update_scatter t4 "ALL" (Some (Int 0), Some (Int 0))) = [].
Proof.
  apply (proj2 (proj2 (out_of_range_is_empty t4 "ALL"))).
  - intros r p Hr Hp.
    apply list_elem_of_In in Hr. simpl in Hr.
    destruct Hr as [<-|[<-|[<-|[<-|[]]]]]; simpl in Hp; injection Hp as <-;
      reflexivity.
  - reflexivity.
Defined.



(** ** The Distribution View *)

#[global] Instance LStr_inj : Inj (=) (=) LStr.
Proof. intros a b Heq. injection Heq as ->. reflexivity. Qed.

#[global] Instance rename_index_inj : Inj (=) (=) rename_index.
Proof.
  intros a b. unfold rename_index.
  repeat case_bool_decide; intros Heq; try congruence.
Qed.

Lemma notna_class_true (r : Row) : notna_class r = true <-> is_Some (class r).
Proof. unfold notna_class. rewrite negb_true_iff. apply is_nan_false. Qed.

Lemma won_as_filter (df : DataFrame) :
  getitem_mask df (map (fun r => eq_scalar (class r) 1%Z) df)
    = filter (fun r => class r = Some 1%Z) df.
Proof.
  rewrite getitem_mask_map. apply list_filter_iff.
  intros r. apply eq_scalar_true.
Qed.

Lemma site_df_as_filter (df : DataFrame) (sel : string) :
  site_df df sel = filter (fun r => Launch_Site r = Some sel) df.
Proof.
  unfold site_df. rewrite getitem_mask_map. apply list_filter_iff.
  intros r. apply eq_scalar_true.
Qed.

Lemma successes_by_site_slice (df : DataFrame) (s : string) (n : nat) :
  (s, n) ∈ successes_by_site df <->
  0 < n /\ n = length (site_outcome s 1 df).
Proof.
  unfold successes_by_site. rewrite won_as_filter, elem_of_groupby_count.
  assert (Hn : counted Launch_Site notna_class s
                 (filter (fun r => class r = Some 1%Z) df)
               = length (site_outcome s 1 df)).
  { unfold counted, site_outcome. rewrite list_filter_filter. f_equal.
    apply list_filter_iff. intros r. rewrite notna_class_true.
    split; [tauto|]. intros [Hs Hc]. rewrite Hc. eauto. }
  rewrite Hn.
  assert (Hex : (exists r, r ∈ filter (fun r => class r = Some 1%Z) df /\
                           Launch_Site r = Some s)
                <-> 0 < length (site_outcome s 1 df)).
  { rewrite positive_length_elem. unfold site_outcome.
    split; intros [r Hr]; exists r;
      rewrite list_elem_of_filter in *; tauto. }
  rewrite Hex. split; intros [H1 H2]; subst; tauto.
Qed.

Lemma outcome_counts_slice (df : DataFrame) (sel : string) (c : Z) (n : nat) :
  (c, n) ∈ groupby_count Z.le class notna_class (site_df df sel) <->
  0 < n /\ n = length (site_outcome sel c df).
Proof.
  rewrite site_df_as_filter, elem_of_groupby_count.
  assert (Hn : counted class notna_class c
                 (filter (fun r => Launch_Site r = Some sel) df)
               = length (site_outcome sel c df)).
  { unfold counted, site_outcome. rewrite list_filter_filter. f_equal.
    apply list_filter_iff. intros r. rewrite notna_class_true.
    split; [tauto|]. intros [Hs Hc]. rewrite Hc. eauto. }
  rewrite Hn.
  assert (Hex : (exists r, r ∈ filter (fun r => Launch_Site r = Some sel) df /\
                           class r = Some c)
                <-> 0 < length (site_outcome sel c df)).
  { rewrite positive_length_elem. unfold site_outcome.
    split; intros [r Hr]; exists r;
      rewrite list_elem_of_filter in *; tauto. }
  rewrite Hex. split; intros [H1 H2]; subst; tauto.
Qed.

Lemma update_pie_all (df : DataFrame) :
  pie_slices (update_pie df "ALL")
    = map (fun sc => (LStr (fst sc), snd sc)) (successes_by_site df).
Proof. reflexivity. Qed.

Lemma update_pie_site (df : DataFrame) (sel : string) :
  sel <> "ALL" -> pie_slices (update_pie df sel) = outcome_counts df sel.
Proof.
  intros Hsel. unfold update_pie.
  rewrite bool_decide_eq_false_2 by exact Hsel. reflexivity.
Qed.

(** C1: the Distribution View.  For ALL it has one slice per site with a
    successful record, and the count of the slice of site [s] is the number
    of records of [s] with outcome 1 in the whole table.  For a site it has
    one slice per outcome found among the records of that site, labelled
    Success for 1 and Failure for 0, and the count of a slice is the number
    of records of that site with that outcome.  On four records with sites
    A, A, B, B and outcomes 1, 0, 1, 1 the ALL view is A:1, B:2. *)
Theorem update_pie_counts (df : DataFrame) :
  (forall s n, (LStr s, n) ∈ pie_slices (update_pie df "ALL") <->
     0 < n /\ n = length (site_outcome s 1 df)) /\
  (forall l n, (l, n) ∈ pie_slices (update_pie df "ALL") ->
     exists s, l = LStr s) /\
  NoDup (map fst (pie_slices (update_pie df "ALL"))) /\
  (forall sel, sel <> "ALL" ->
     (forall c n, (rename_index c, n) ∈ pie_slices (update_pie df sel) <->
        0 < n /\ n = length (site_outcome sel c df)) /\
     (forall l n, (l, n) ∈ pie_slices (update_pie df sel) ->
        exists c, l = rename_index c) /\
     NoDup (map fst (pie_slices (update_pie df sel)))) /\
  rename_index 1 = LStr "Success" /\
  rename_index 0 = LStr "Failure" /\
  (forall p1 p2 p3 p4 b1 b2 b3 b4,
     pie_slices
       (update_pie [ mkRow (Some "A") (Some 1%Z) p1 b1;
                     mkRow (Some "A") (Some 0%Z) p2 b2;
                     mkRow (Some "B") (Some 1%Z) p3 b3;
                     mkRow (Some "B") (Some 1%Z) p4 b4 ] "ALL")
     = [ (LStr "A", 1); (LStr "B", 2) ]).
Proof.
  split; [|split; [|split; [|split]]].
  - intros s n. rewrite update_pie_all, list_elem_of_fmap.
    rewrite <- successes_by_site_slice. split.
    + intros ([s' n'] & Heq & Hin). simpl in Heq. injection Heq as -> ->.
      exact Hin.
    + intros Hin. exists (s, n). split; [reflexivity | exact Hin].
  - intros l n. rewrite update_pie_all, list_elem_of_fmap.
    intros ([s' n'] & Heq & _). simpl in Heq. injection Heq as -> _. eauto.
  - rewrite update_pie_all, map_map. simpl.
    rewrite <- (map_map fst LStr). apply (NoDup_fmap_2 LStr).
    unfold successes_by_site. rewrite groupby_count_keys.
    apply NoDup_group_keys.
  - intros sel Hsel. rewrite update_pie_site by exact Hsel.
    unfold outcome_counts. split; [|split].
    + intros c n. rewrite list_elem_of_fmap, <- outcome_counts_slice. split.
      * intros ([c' n'] & Heq & Hin). simpl in Heq. injection Heq as Hc ->.
        apply rename_index_inj in Hc as ->. exact Hin.
      * intros Hin. exists (c, n). split; [reflexivity | exact Hin].
    + intros l n. rewrite list_elem_of_fmap.
      intros ([c' n'] & Heq & _). simpl in Heq. injection Heq as -> _. eauto.
    + rewrite map_map. simpl.
      rewrite <- (map_map fst rename_index). apply (NoDup_fmap_2 rename_index).
      rewrite groupby_count_keys. apply NoDup_group_keys.
  - split; [reflexivity|]. split; [reflexivity|].
    intros p1 p2 p3 p4 b1 b2 b3 b4. reflexivity.
Qed.

Lemma update_pie_counts_witness :
  (LStr "Success", 1) ∈ pie_slices (update_pie t4 "A") <->
  0 < 1 /\ 1 = length (site_outcome "A" 1 t4).
Proof.
  apply (proj1 (proj1 (proj2 (proj2 (proj2 (update_pie_counts t4)))) "A"
                  ltac:(discriminate)) 1%Z 1).
Defined.

(** C5, as stated, fails for ALL: on the four-record table every record
    matches the selection, and the counts of the pie add up to the three
    successful ones. *)
Lemma pie_sum_all_is_not_table_size :
  "ALL" ∈ dropdown_options (cleanup t4) /\
  sum_list (pie_values (update_pie (cleanup t4) "ALL")) = 3 /\
  length (matching_records (cleanup t4) "ALL") = 4 /\
  sum_list (pie_values (update_pie (cleanup t4) "ALL"))
    <> length (matching_records (cleanup t4) "ALL").
Proof.
  split; [left|]. split; [reflexivity|]. split; [reflexivity|].
  vm_compute. discriminate.
Qed.

Lemma pie_values_all (df : DataFrame) :
  pie_values (update_pie df "ALL") = map snd (successes_by_site df).
Proof.
  unfold pie_values. rewrite update_pie_all, map_map. reflexivity.
Qed.

Lemma pie_values_site (df : DataFrame) (sel : string) :
  sel <> "ALL" ->
  pie_values (update_pie df sel)
    = map snd (groupby_count Z.le class notna_class (site_df df sel)).
Proof.
  intros Hsel. unfold pie_values. rewrite update_pie_site by exact Hsel.
  unfold outcome_counts. rewrite map_map. reflexivity.
Qed.

(** C5, amended: on a loaded table the counts of the Distribution View add
    up, for ALL, to the number of successful records (outcome 1) of the
    whole table and, for a site, to the number of records of that site. *)
Theorem pie_counts_sum (raw : DataFrame) (sel : string) :
  sum_list (pie_values (update_pie (cleanup raw) sel))
  = if bool_decide (sel = "ALL")
    then length (filter (fun r => class r = Some 1%Z) (cleanup raw))
    else length (matching_records (cleanup raw) sel).
Proof.
  case_bool_decide as Hsel.
  - subst sel. rewrite pie_values_all. unfold successes_by_site.
    rewrite sum_groupby_count, won_as_filter, list_filter_filter.
    f_equal. apply filter_ext_elem. intros r Hr.
    apply elem_of_cleanup in Hr as [_ (Hs & Hc & _)].
    rewrite notna_class_true. tauto.
  - rewrite pie_values_site by exact Hsel.
    unfold matching_records. rewrite bool_decide_eq_false_2 by exact Hsel.
    rewrite sum_groupby_count, site_df_as_filter, list_filter_filter.
    f_equal. apply filter_ext_elem. intros r Hr.
    apply elem_of_cleanup in Hr as [_ (Hs & Hc & _)].
    rewrite notna_class_true. tauto.
Qed.

(** ** The callbacks leave the table alone *)

(** Throughout a callback the store is the store [st] it started from,
    followed by the objects [new] allocated since. *)

Lemma lookup_old (st new : list Store.Object) (a : nat) (o : Store.Object) :
  st !! a = Some o -> (st ++ new) !! a = Some o.
Proof. intros Ha. apply lookup_app_l_Some, Ha. Qed.

Lemma lookup_new (st new : list Store.Object) (i : nat) :
  (st ++ new) !! (length st + i) = new !! i.
Proof. rewrite lookup_app_r by lia. f_equal. lia. Qed.

Lemma insert_new (st new : list Store.Object) (i : nat) (o : Store.Object) :
  <[length st + i := o]> (st ++ new) = st ++ <[i := o]> new.
Proof.
  rewrite insert_app_r_alt by lia. do 2 f_equal. lia.
Qed.

Lemma alloc_run (st new : list Store.Object) (o : Store.Object) :
  Store.alloc o (st ++ new)
    = Some (length st + length new, st ++ (new ++ [o])).
Proof.
  unfold Store.alloc. rewrite length_app, app_assoc. reflexivity.
Qed.

Lemma read_frame_run (st : list Store.Object) (a : nat) (df : DataFrame) :
  st !! a = Some (Store.ODataFrame df) -> Store.read_frame a st = Some (df, st).
Proof. intros Ha. unfold Store.read_frame. rewrite Ha. reflexivity. Qed.

Lemma read_series_run (st : list Store.Object) (a : nat) (s : list bool) :
  st !! a = Some (Store.OSeries s) -> Store.read_series a st = Some (s, st).
Proof. intros Ha. unfold Store.read_series. rewrite Ha. reflexivity. Qed.

Lemma frame_compare_run (st new : list Store.Object) (a : nat)
  (df : DataFrame) (test : Row -> bool) :
  (st ++ new) !! a = Some (Store.ODataFrame df) ->
  Store.frame_compare a test (st ++ new)
    = Some (length st + length new,
            st ++ (new ++ [Store.OSeries (map test df)])).
Proof.
  intros Ha. unfold Store.frame_compare, Store.bind.
  rewrite (read_frame_run _ _ _ Ha). apply alloc_run.
Qed.

Lemma and_run (st new : list Store.Object) (a b : nat) (x y : list bool) :
  (st ++ new) !! a = Some (Store.OSeries x) ->
  (st ++ new) !! b = Some (Store.OSeries y) ->
  Store.and_ a b (st ++ new)
    = Some (length st + length new,
            st ++ (new ++ [Store.OSeries (series_and x y)])).
Proof.
  intros Ha Hb. unfold Store.and_, Store.bind.
  rewrite (read_series_run _ _ _ Ha), (read_series_run _ _ _ Hb).
  apply alloc_run.
Qed.

Lemma iand_run (st new : list Store.Object) (i b : nat) (x y : list bool) :
  new !! i = Some (Store.OSeries x) ->
  (st ++ new) !! b = Some (Store.OSeries y) ->
  Store.iand (length st + i) b (st ++ new)
    = Some (tt, st ++ <[i := Store.OSeries (series_and x y)]> new).
Proof.
  intros Hi Hb. unfold Store.iand, Store.bind.
  rewrite (read_series_run _ (length st + i) x)
    by (rewrite lookup_new; exact Hi).
  rewrite (read_series_run _ _ _ Hb). unfold Store.write.
  apply lookup_lt_Some in Hi.
  rewrite decide_True by (rewrite length_app; lia).
  rewrite insert_new. reflexivity.
Qed.

Lemma getitem_run (st new : list Store.Object) (a m : nat) (df : DataFrame)
  (s : list bool) :
  (st ++ new) !! a = Some (Store.ODataFrame df) ->
  (st ++ new) !! m = Some (Store.OSeries s) ->
  length s = length df ->
  Store.getitem a m (st ++ new)
    = Some (length st + length new,
            st ++ (new ++ [Store.ODataFrame (getitem_mask df s)])).
Proof.
  intros Ha Hm Hlen. unfold Store.getitem, Store.bind.
  rewrite (read_frame_run _ _ _ Ha), (read_series_run _ _ _ Hm).
  rewrite decide_True by exact Hlen. apply alloc_run.
Qed.

Lemma copy_run (st new : list Store.Object) (a : nat) (df : DataFrame) :
  (st ++ new) !! a = Some (Store.ODataFrame df) ->
  Store.copy a (st ++ new)
    = Some (length st + length new, st ++ (new ++ [Store.ODataFrame df])).
Proof.
  intros Ha. unfold Store.copy, Store.bind.
  rewrite (read_frame_run _ _ _ Ha). apply alloc_run.
Qed.

Lemma length_series_and_map {A} (f g : A -> bool) (l : list A) :
  length (series_and (map f l) (map g l)) = length l.
Proof. rewrite series_and_map. apply length_map. Qed.

Ltac old_object := apply lookup_old; assumption.
Ltac new_object := rewrite lookup_new; reflexivity.

Lemma update_pie_run (st : list Store.Object) (spacex_df : nat)
  (df : DataFrame) (sel : string) :
  st !! spacex_df = Some (Store.ODataFrame df) ->
  exists new,
    Store.update_pie spacex_df sel st = Some (update_pie df sel, st ++ new).
Proof.
  intros Hdf.
  cut (exists new, Store.update_pie spacex_df sel (st ++ [])
                   = Some (update_pie df sel, st ++ new));
    [rewrite app_nil_r; trivial|].
  unfold Store.update_pie, update_pie, Store.bind.
  destruct (bool_decide (sel = "ALL")).
  - rewrite (frame_compare_run st [] spacex_df df) by old_object. simpl.
    rewrite (getitem_run st _ spacex_df (length st + 0) df
               (map (fun r => eq_scalar (class r) 1%Z) df));
      [|old_object|new_object|apply length_map].
    simpl.
    erewrite (read_frame_run _ (length st + 1)) by new_object.
    eexists. reflexivity.
  - rewrite (frame_compare_run st [] spacex_df df) by old_object. simpl.
    rewrite (getitem_run st _ spacex_df (length st + 0) df
               (map (fun r => eq_scalar (Launch_Site r) sel) df));
      [|old_object|new_object|apply length_map].
    simpl.
    erewrite (read_frame_run _ (length st + 1)) by new_object.
    eexists. reflexivity.
Qed.

Lemma update_scatter_run (st : list Store.Object) (spacex_df : nat)
  (df : DataFrame) (sel : string) (payload_range : option Number * option Number) :
  st !! spacex_df = Some (Store.ODataFrame df) ->
  exists new,
    Store.update_scatter spacex_df sel payload_range st
      = Some (update_scatter df sel payload_range, st ++ new).
Proof.
  intros Hdf. destruct payload_range as [lo hi].
  cut (exists new, Store.update_scatter spacex_df sel (lo, hi) (st ++ [])
                   = Some (update_scatter df sel (lo, hi), st ++ new));
    [rewrite app_nil_r; trivial|].
  unfold Store.update_scatter, update_scatter, filtered, mask, Store.bind.
  rewrite (frame_compare_run st [] spacex_df df) by old_object. simpl.
  rewrite (frame_compare_run st _ spacex_df df) by old_object. simpl.
  erewrite (and_run st _ (length st + 0) (length st + 1)); [|new_object..].
  simpl.
  destruct (bool_decide (sel <> "ALL")).
  - rewrite (frame_compare_run st _ spacex_df df) by old_object. simpl.
    erewrite (iand_run st _ 2 (length st + 3)); [|reflexivity|new_object].
    simpl.
    erewrite (getitem_run st _ spacex_df (length st + 2) df);
      [|old_object|new_object|].
    2:{ rewrite series_and_map, length_series_and_map. reflexivity. }
    simpl.
    erewrite (copy_run st _ (length st + 4)) by new_object. simpl.
    erewrite (read_frame_run _ (length st + 5)) by new_object.
    eexists. reflexivity.
  - unfold Store.ret.
    erewrite (getitem_run st _ spacex_df (length st + 2) df);
      [|old_object|new_object|apply length_series_and_map].
    simpl.
    erewrite (copy_run st _ (length st + 3)) by new_object. simpl.
    erewrite (read_frame_run _ (length st + 4)) by new_object.
    eexists. reflexivity.
Qed.

(** C9: a recomputation of either view, for any site and any range, gives
    its figure and leaves the table as it was: the store after the call is
    the store before it followed by the objects the call allocated, so the
    object [spacex_df] names, and every other object that existed before,
    is unchanged. *)
Theorem callbacks_leave_table_unchanged (st : list Store.Object)
  (spacex_df : nat) (df : DataFrame) (sel : string)
  (payload_range : option Number * option Number) :
  st !! spacex_df = Some (Store.ODataFrame df) ->
  (exists st',
     Store.update_pie spacex_df sel st = Some (update_pie df sel, st') /\
     st `prefix_of` st' /\
     st' !! spacex_df = Some (Store.ODataFrame df) /\
     (forall a o, st !! a = Some o -> st' !! a = Some o)) /\
  (exists st',
     Store.update_scatter spacex_df sel payload_range st
       = Some (update_scatter df sel payload_range, st') /\
     st `prefix_of` st' /\
     st' !! spacex_df = Some (Store.ODataFrame df) /\
     (forall a o, st !! a = Some o -> st' !! a = Some o)).
Proof.
  intros Hdf. split.
  - destruct (update_pie_run st spacex_df df sel Hdf) as [new Hrun].
    exists (st ++ new). split; [exact Hrun|].
    split; [exists new; reflexivity|].
    split; [apply lookup_old, Hdf|]. intros a o. apply lookup_old.
  - destruct (update_scatter_run st spacex_df df sel payload_range Hdf)
      as [new Hrun].
    exists (st ++ new). split; [exact Hrun|].
    split; [exists new; reflexivity|].
    split; [apply lookup_old, Hdf|]. intros a o. apply lookup_old.
Qed.

Lemma callbacks_leave_table_unchanged_witness :
  (exists st',
     Store.update_pie 0 "B" [Store.ODataFrame t4]
       = Some (update_pie t4 "B", st') /\
     [Store.ODataFrame t4] `prefix_of` st' /\
     st' !! 0 = Some (Store.ODataFrame t4) /\
     (forall a o, [Store.ODataFrame t4] !! a = Some o -> st' !! a = Some o)) /\
  (exists st',
     Store.update_scatter 0 "B" (Some (Float (0 # 1)), Some (Float (4000 # 1)))
       [Store.ODataFrame t4]
       = Some (update_scatter t4 "B" (Some (Float (0 # 1)), Some (Float (4000 # 1))), st') /\
     [Store.ODataFrame t4] `prefix_of` st' /\
     st' !! 0 = Some (Store.ODataFrame t4) /\
     (forall a o, [Store.ODataFrame t4] !! a = Some o -> st' !! a = Some o)).
Proof.
  apply (callbacks_leave_table_unchanged [Store.ODataFrame t4] 0 t4 "B"
           (Some (Float (0 # 1)), Some (Float (4000 # 1)))).
  reflexivity.
Defined.

(** ** More on the load step *)

(** X1: cleaning twice changes nothing more, a table is left as it is
    exactly when none of its records misses a site, an outcome or a payload,
    and the cleanup never adds a record. *)
Theorem cleanup_idempotent_fixpoint (df : DataFrame) :
  cleanup (cleanup df) = cleanup df /\
  (cleanup df = df <-> Forall key_columns_present df) /\
  length (cleanup df) <= length df.
Proof.
  split; [|split].
  - rewrite (cleanup_as_filter (cleanup df)). apply filter_all.
    intros r Hr. apply elem_of_cleanup in Hr. tauto.
  - split.
    + intros <-. apply cleanup_present.
    + intros Hall. rewrite cleanup_as_filter. apply filter_all.
      apply Forall_forall, Hall.
  - rewrite cleanup_as_filter. apply length_filter.
Qed.

(** X2: when the load succeeds, the configured path names a file whose text
    is not blank, the CSV reader gave a frame for that text, the frame has
    the columns of site, outcome and payload, the table is the cleaned
    frame, and no record in it misses a site, an outcome or a payload. *)
Theorem load_ok_table_complete (parse_csv : string -> Parse)
  (environ : gmap string string) (fs : gmap string FsNode) (df : DataFrame) :
  load parse_csv environ fs = Ok df ->
  (exists txt columns rows,
     fs !! CSV_PATH environ = Some (RegularFile txt) /\
     blank txt = false /\
     parse_csv txt = parsed columns rows /\
     (forall c, c ∈ key_columns -> c ∈ columns) /\
     df = cleanup rows) /\
  Forall key_columns_present df.
Proof.
  unfold load, os_path_exists, pd_read_csv.
  destruct (fs !! CSV_PATH environ) as [[txt|]|] eqn:Hfs; try discriminate.
  destruct (blank txt) eqn:Hblank; [discriminate|].
  destruct (parse_csv txt) as [columns rows|e] eqn:Hparse; [|discriminate].
  destruct (missing_columns key_columns columns) eqn:Hmiss; [|discriminate].
  intros Hok. injection Hok as <-. split; [|apply cleanup_present].
  exists txt, columns, rows. repeat split; try assumption.
  apply missing_columns_nil, Hmiss.
Qed.

Lemma load_ok_table_complete_witness :
  (exists txt columns rows,
     ({[ "launches.csv" := RegularFile t4_csv ]} : gmap string FsNode)
       !! CSV_PATH {[ "SPACEX_DASH_CSV" := "launches.csv" ]}
       = Some (RegularFile txt) /\
     blank txt = false /\
     t4_reader txt = parsed columns rows /\
     (forall c, c ∈ key_columns -> c ∈ columns) /\
     cleanup t4 = cleanup rows) /\
  Forall key_columns_present (cleanup t4).
Proof.
  apply (load_ok_table_complete t4_reader
           {[ "SPACEX_DASH_CSV" := "launches.csv" ]}
           {[ "launches.csv" := RegularFile t4_csv ]}).
  vm_compute. reflexivity.
Defined.

(** X3: the load looks at one environment variable and one path only: two
    environments that agree on [SPACEX_DASH_CSV] and two file systems that
    agree on the configured path give the same table or the same error. *)
Theorem load_reads_only_configured_path
  (parse_csv : string -> Parse)
  (environ environ' : gmap string string) (fs fs' : gmap string FsNode) :
  environ !! "SPACEX_DASH_CSV" = environ' !! "SPACEX_DASH_CSV" ->
  fs !! CSV_PATH environ = fs' !! CSV_PATH environ ->
  load parse_csv environ fs = load parse_csv environ' fs'.
Proof.
  intros Henv Hfs.
  assert (Hpath : CSV_PATH environ' = CSV_PATH environ).
  { unfold CSV_PATH, environ_get. rewrite Henv. reflexivity. }
  unfold load, os_path_exists, pd_read_csv. rewrite Hpath, Hfs. reflexivity.
Qed.

Lemma load_reads_only_configured_path_witness :
  load t4_reader {[ "SPACEX_DASH_CSV" := "launches.csv" ]}
       {[ "launches.csv" := RegularFile t4_csv ]}
  = load t4_reader
      {[ "SPACEX_DASH_CSV" := "launches.csv"; "HOME" := "/root" ]}
      {[ "launches.csv" := RegularFile t4_csv;
         "spacex_launch_dash.csv" := Directory ]}.
Proof.
  apply load_reads_only_configured_path; vm_compute; reflexivity.
Defined.

(** ** More on the payload bounds *)

Lemma skipna_fold_None (f : Number -> Number -> Number)
  (s : list (option Number)) :
  skipna_fold f s = None <-> forall x, x ∈ s -> x = None.
Proof.
  induction s as [|c s IH].
  - split; [|reflexivity]. intros _ x Hx. inversion Hx.
  - rewrite skipna_fold_cons. destruct c as [a|].
    + split.
      * destruct (skipna_fold f s); discriminate.
      * intros Hall. specialize (Hall (Some a)).
        discriminate Hall. left.
    + rewrite IH. split.
      * intros Hall x Hx. apply elem_of_cons in Hx as [->|Hx]; auto.
      * intros Hall x Hx. apply Hall. right. exact Hx.
Qed.

Lemma skipna_fold_attained (f : Number -> Number -> Number)
  (s : list (option Number)) (m : Number) :
  (forall a b, f a b = a \/ f a b = b) ->
  skipna_fold f s = Some m -> Some m ∈ s.
Proof.
  intros Hf. revert m. induction s as [|c s IH]; intros m.
  - discriminate.
  - rewrite skipna_fold_cons. destruct c as [a|].
    + destruct (skipna_fold f s) as [b|].
      * intros Hm. injection Hm as <-. destruct (Hf a b) as [->| ->].
        -- left.
        -- right. apply IH. reflexivity.
      * intros Hm. injection Hm as <-. left.
    + intros Hm. right. apply IH, Hm.
Qed.

(** X4: the slider bounds are the least and the greatest payload mass of
    the table, made floats.  Each bound is [float(m)] for the payload [m]
    of some record; it is that payload itself when float64 holds the
    payload as it is, and may be a neighbouring float when the payload is
    an integer above [2^53]; the float of every payload lies between the
    two bounds; and the bounds are NaN exactly when no record has a
    payload. *)
Theorem payload_bounds_extremal (df : DataFrame) :
  (payload_min df = None <-> forall r, r ∈ df -> Payload_Mass r = None) /\
  (payload_max df = None <-> forall r, r ∈ df -> Payload_Mass r = None) /\
  (forall lo, payload_min df = Some lo ->
     (exists r m, r ∈ df /\ Payload_Mass r = Some m /\
        lo = Float (float m) /\ (exact m -> value lo = value m)) /\
     (forall r p, r ∈ df -> Payload_Mass r = Some p ->
        (value lo <= float p)%Q)) /\
  (forall hi, payload_max df = Some hi ->
     (exists r m, r ∈ df /\ Payload_Mass r = Some m /\
        hi = Float (float m) /\ (exact m -> value hi = value m)) /\
     (forall r p, r ∈ df -> Payload_Mass r = Some p ->
        (float p <= value hi)%Q)) /\
  (forall lo hi, payload_min df = Some lo -> payload_max df = Some hi ->
     (value lo <= value hi)%Q).
Proof.
  assert (Hnone : forall f,
            option_map (fun m => Float (float m))
              (skipna_fold f (map Payload_Mass df)) = None <->
            forall r, r ∈ df -> Payload_Mass r = None).
  { intros f.
    destruct (skipna_fold f (map Payload_Mass df)) as [m|] eqn:Hf; simpl.
    - split; [discriminate|]. intros Hall.
      assert (Hn : skipna_fold f (map Payload_Mass df) = None).
      { apply skipna_fold_None. intros x Hx.
        apply list_elem_of_fmap in Hx as (r & -> & Hr). apply Hall, Hr. }
      congruence.
    - split; [|reflexivity]. intros _ r Hr.
      apply (proj1 (skipna_fold_None f _) Hf).
      apply (list_elem_of_fmap_2 Payload_Mass), Hr. }
  assert (Hatt : forall f b,
            (forall a b, f a b = a \/ f a b = b) ->
            option_map (fun m => Float (float m))
              (skipna_fold f (map Payload_Mass df)) = Some b ->
            exists r m, r ∈ df /\ Payload_Mass r = Some m /\
              b = Float (float m) /\ (exact m -> value b = value m)).
  { intros f b Hf Hb.
    destruct (skipna_fold f (map Payload_Mass df)) as [m|] eqn:Hm;
      [|discriminate].
    simpl in Hb. injection Hb as <-.
    apply skipna_fold_attained in Hm; [|exact Hf].
    apply list_elem_of_fmap in Hm as (r & Hr & Hin).
    exists r, m. repeat split; auto. simpl. apply float_exact. }
  assert (Hmin : forall lo, payload_min df = Some lo ->
     (exists r m, r ∈ df /\ Payload_Mass r = Some m /\
        lo = Float (float m) /\ (exact m -> value lo = value m)) /\
     (forall r p, r ∈ df -> Payload_Mass r = Some p ->
        (value lo <= float p)%Q)).
  { intros lo Hlo. split.
    - apply (Hatt num_min); [|exact Hlo].
      intros a b. unfold num_min. destruct (num_leb a b); tauto.
    - intros r p Hr Hp.
      destruct (bounds_cover df r Hr) as [H _]; [rewrite Hp; eauto|].
      rewrite Hlo, Hp in H.
      destruct (Hatt num_min lo) as (_ & m & _ & _ & -> & _);
        [intros a b; unfold num_min; destruct (num_leb a b); tauto
        |exact Hlo|].
      apply num_le_float_l in H. exact H. }
  assert (Hmax : forall hi, payload_max df = Some hi ->
     (exists r m, r ∈ df /\ Payload_Mass r = Some m /\
        hi = Float (float m) /\ (exact m -> value hi = value m)) /\
     (forall r p, r ∈ df -> Payload_Mass r = Some p ->
        (float p <= value hi)%Q)).
  { intros hi Hhi. split.
    - apply (Hatt num_max); [|exact Hhi].
      intros a b. unfold num_max. destruct (num_leb a b); tauto.
    - intros r p Hr Hp.
      destruct (bounds_cover df r Hr) as [_ H]; [rewrite Hp; eauto|].
      rewrite Hhi, Hp in H.
      destruct (Hatt num_max hi) as (_ & m & _ & _ & -> & _);
        [intros a b; unfold num_max; destruct (num_leb a b); tauto
        |exact Hhi|].
      apply num_le_float_r in H. exact H. }
  split; [apply Hnone|]. split; [apply Hnone|].
  split; [exact Hmin|]. split; [exact Hmax|].
  intros lo hi Hlo Hhi.
  destruct (Hmin lo Hlo) as [(r & m & Hr & Hp & _ & _) Hle1].
  destruct (Hmax hi Hhi) as [_ Hle2].
  eapply Qle_trans; [exact (Hle1 r m Hr Hp) | exact (Hle2 r m Hr Hp)].
Qed.

Lemma payload_bounds_extremal_witness :
  (value (Float (500 # 1)) <= value (Float (5300 # 1)))%Q.
Proof.
  apply (proj2 (proj2 (proj2 (proj2 (payload_bounds_extremal t4))))
           (Float (500 # 1)) (Float (5300 # 1))); reflexivity.
Defined.

(** ** The order of the sites *)

Lemma str_le_compare (a b : string) : str_le a b <-> String.compare a b <> Gt.
Proof.
  unfold str_le, String.leb. destruct (String.compare a b); split;
    congruence.
Qed.

Lemma string_compare_le_trans (a b c : string) :
  String.compare a b <> Gt -> String.compare b c <> Gt ->
  String.compare a c <> Gt.
Proof.
  revert b c. induction a as [|x a IH]; intros [|y b] [|z c]; simpl;
    try congruence.
  unfold Ascii.compare.
  destruct (N.compare_spec (Ascii.N_of_ascii x) (Ascii.N_of_ascii y)),
           (N.compare_spec (Ascii.N_of_ascii y) (Ascii.N_of_ascii z)),
           (N.compare_spec (Ascii.N_of_ascii x) (Ascii.N_of_ascii z));
    try congruence; try lia.
  apply IH.
Qed.

#[global] Instance str_le_total : Total str_le.
Proof. intros a b. apply String.leb_total. Qed.

#[global] Instance str_le_trans : Transitive str_le.
Proof.
  intros a b c. rewrite !str_le_compare. apply string_compare_le_trans.
Qed.

#[global] Instance str_le_antisym : AntiSymm (=) str_le.
Proof. intros a b. apply String.leb_antisym. Qed.

Section GroupByOrder.
Context {K : Type} `{EqDecision K}.
Context (R : relation K) `{forall x y, Decision (R x y)}.
Context `{!Total R, !Transitive R, !AntiSymm (=) R}.
Context (key : Row -> option K) (notna : Row -> bool).

Lemma group_keys_sorted (df : DataFrame) :
  StronglySorted R (group_keys R key df).
Proof. unfold group_keys. apply StronglySorted_merge_sort; assumption. Qed.

Lemma group_keys_perm (df df' : DataFrame) :
  df ≡ₚ df' -> group_keys R key df = group_keys R key df'.
Proof.
  intros Hperm. apply (StronglySorted_unique R); try apply group_keys_sorted.
  apply NoDup_Permutation; try apply NoDup_group_keys.
  intros k. rewrite !elem_of_group_keys.
  split; intros (r & Hr & Hk); exists r; split; try exact Hk.
  - rewrite <- Hperm. exact Hr.
  - rewrite Hperm. exact Hr.
Qed.

Lemma groupby_count_perm (df df' : DataFrame) :
  df ≡ₚ df' -> groupby_count R key notna df = groupby_count R key notna df'.
Proof.
  intros Hperm. rewrite !groupby_count_counted.
  rewrite (group_keys_perm df df' Hperm). apply map_ext. intros k.
  unfold counted. rewrite Hperm. reflexivity.
Qed.

End GroupByOrder.

(** X5: the sites offered by the drop-down are the sites of the records,
    each one once, in ascending order; they do not depend on the order of
    the records in the table. *)
Theorem launch_sites_sorted_distinct (df : DataFrame) :
  NoDup (launch_sites df) /\
  StronglySorted str_le (launch_sites df) /\
  (forall s, s ∈ launch_sites df <->
     exists r, r ∈ df /\ Launch_Site r = Some s) /\
  (forall df', df ≡ₚ df' -> launch_sites df' = launch_sites df).
Proof.
  change (launch_sites df) with (group_keys str_le Launch_Site df).
  split; [apply NoDup_group_keys|].
  split; [apply group_keys_sorted; apply _|].
  split; [intros s; apply elem_of_group_keys|].
  intros df' Hperm.
  change (launch_sites df') with (group_keys str_le Launch_Site df').
  symmetry. apply group_keys_perm; [apply _..|exact Hperm].
Qed.

Lemma launch_sites_sorted_distinct_witness :
  launch_sites (reverse t4) = launch_sites t4.
Proof.
  apply (proj2 (proj2 (proj2 (launch_sites_sorted_distinct t4)))).
  symmetry. apply reverse_Permutation.
Defined.

(** X6: the Distribution View does not depend on the order of the records:
    two tables with the same records, in any order, give the same figure,
    for ALL and for every site; and the slices of the ALL view come in
    ascending order of site name. *)
Theorem update_pie_order_independent (df df' : DataFrame) (sel : string) :
  df ≡ₚ df' ->
  update_pie df sel = update_pie df' sel /\
  StronglySorted str_le (map fst (successes_by_site df)).
Proof.
  intros Hperm. split.
  - unfold update_pie, outcome_counts, successes_by_site.
    rewrite !won_as_filter, !site_df_as_filter.
    rewrite (groupby_count_perm str_le Launch_Site notna_class
               (filter (fun r => class r = Some 1%Z) df)
               (filter (fun r => class r = Some 1%Z) df'))
      by (rewrite Hperm; reflexivity).
    rewrite (groupby_count_perm Z.le class notna_class
               (filter (fun r => Launch_Site r = Some sel) df)
               (filter (fun r => Launch_Site r = Some sel) df'))
      by (rewrite Hperm; reflexivity).
    reflexivity.
  - unfold successes_by_site. rewrite groupby_count_keys.
    apply group_keys_sorted; apply _.
Qed.

Lemma update_pie_order_independent_witness :
  update_pie t4 "ALL" = update_pie (reverse t4) "ALL" /\
  StronglySorted str_le (map fst (successes_by_site t4)).
Proof.
  apply update_pie_order_independent.
  symmetry. apply reverse_Permutation.
Defined.

(** ** More on the Distribution View *)

Lemma group_keys_nil {K : Type} `{EqDecision K} (R : relation K)
  `{forall x y, Decision (R x y)} (key : Row -> option K) (df : DataFrame) :
  group_keys R key df = [] <-> forall r, r ∈ df -> key r = None.
Proof.
  split.
  - intros Hnil r Hr. destruct (key r) as [k|] eqn:Hk; [|reflexivity].
    assert (Hin : k ∈ group_keys R key df)
      by (apply elem_of_group_keys; eauto).
    rewrite Hnil in Hin. inversion Hin.
  - intros Hall. apply elem_of_nil_inv. intros k Hk.
    apply elem_of_group_keys in Hk as (r & Hr & Hk).
    rewrite (Hall r Hr) in Hk. discriminate.
Qed.

Lemma map_nil_iff {A B} (f : A -> B) (l : list A) : map f l = [] <-> l = [].
Proof. destruct l; simpl; split; congruence. Qed.

(** X7: the Distribution View is an empty chart, not an error, exactly
    when there is nothing to count: for ALL, when no record with a site is
    successful; for a site, when no record of that site has an outcome, in
    particular when the table has no record of that site. *)
Theorem update_pie_empty_iff (df : DataFrame) (sel : string) :
  (pie_slices (update_pie df "ALL") = [] <->
   forall r, r ∈ df -> class r = Some 1%Z -> Launch_Site r = None) /\
  (sel <> "ALL" ->
   (pie_slices (update_pie df sel) = [] <->
    forall r, r ∈ df -> Launch_Site r = Some sel -> class r = None) /\
   ((forall r, r ∈ df -> Launch_Site r <> Some sel) ->
    pie_slices (update_pie df sel) = [])).
Proof.
  split.
  - rewrite update_pie_all, map_nil_iff. unfold successes_by_site.
    rewrite <- (map_nil_iff fst), groupby_count_keys, group_keys_nil.
    rewrite won_as_filter. split.
    + intros Hall r Hr Hc. apply Hall. apply list_elem_of_filter. tauto.
    + intros Hall r Hr. apply list_elem_of_filter in Hr as [Hc Hr]. auto.
  - intros Hsel.
    assert (Hiff : pie_slices (update_pie df sel) = [] <->
              forall r, r ∈ df -> Launch_Site r = Some sel -> class r = None).
    { rewrite update_pie_site by exact Hsel. unfold outcome_counts.
      rewrite map_nil_iff.
      rewrite <- (map_nil_iff fst), groupby_count_keys, group_keys_nil.
      rewrite site_df_as_filter. split.
      - intros Hall r Hr Hs. apply Hall. apply list_elem_of_filter. tauto.
      - intros Hall r Hr. apply list_elem_of_filter in Hr as [Hs Hr]. auto. }
    split; [exact Hiff|].
    intros Hno. apply Hiff. intros r Hr Hs. destruct (Hno r Hr Hs).
Qed.

Lemma update_pie_empty_iff_witness :
  pie_slices (update_pie t4 "KSC LC-39A") = [].
Proof.
  apply (proj2 (proj2 (update_pie_empty_iff t4 "KSC LC-39A")
                  ltac:(discriminate))).
  intros r Hr. apply list_elem_of_In in Hr. simpl in Hr.
  destruct Hr as [<-|[<-|[<-|[<-|[]]]]]; discriminate.
Defined.

(** X8: the two pies agree: for a site other than the literal ALL, the
    slice of that site in the ALL view and the Success slice of the site's
    own view are there together, and with the same count. *)
Theorem pie_views_agree (df : DataFrame) (s : string) (n : nat) :
  s <> "ALL" ->
  ((LStr s, n) ∈ pie_slices (update_pie df "ALL") <->
   (LStr "Success", n) ∈ pie_slices (update_pie df s)).
Proof.
  intros Hs. rewrite update_pie_all, update_pie_site by exact Hs.
  unfold outcome_counts. rewrite !list_elem_of_fmap. split.
  - intros ([s' n'] & Heq & Hin). simpl in Heq. injection Heq as -> ->.
    apply successes_by_site_slice in Hin.
    exists (1%Z, n'). split; [reflexivity|].
    apply outcome_counts_slice. exact Hin.
  - intros ([c n'] & Heq & Hin). simpl in Heq. injection Heq as Hc ->.
    assert (c = 1%Z) as ->.
    { apply rename_index_inj. symmetry. exact Hc. }
    apply outcome_counts_slice in Hin.
    exists (s, n'). split; [reflexivity|].
    apply successes_by_site_slice. exact Hin.
Qed.

Lemma pie_views_agree_witness :
  (LStr "B", 2) ∈ pie_slices (update_pie t4 "ALL") <->
  (LStr "Success", 2) ∈ pie_slices (update_pie t4 "B").
Proof. apply pie_views_agree. discriminate. Defined.

Lemma outcome_key_present (df : DataFrame) (sel : string) (c : Z) :
  c ∈ group_keys Z.le class (site_df df sel) <->
  0 < length (site_outcome sel c df).
Proof.
  rewrite elem_of_group_keys, site_df_as_filter, positive_length_elem.
  unfold site_outcome.
  split; intros [r Hr]; exists r; rewrite list_elem_of_filter in *; tauto.
Qed.

Lemma outcome_counted (df : DataFrame) (sel : string) (c : Z) :
  counted class notna_class c (site_df df sel)
    = length (site_outcome sel c df).
Proof.
  rewrite site_df_as_filter. unfold counted, site_outcome.
  rewrite list_filter_filter. f_equal.
  apply list_filter_iff. intros r. rewrite notna_class_true.
  split; [tauto|]. intros [Hs Hc]. rewrite Hc. eauto.
Qed.

(** X9: when the outcomes of a site are all 0 or 1, its pie has at most
    two slices, Failure first and Success second, each present exactly when
    its count is positive: the number of records of the site with outcome 0
    and with outcome 1. *)
Theorem outcome_pie_binary (df : DataFrame) (sel : string) :
  sel <> "ALL" ->
  (forall r c, r ∈ df -> Launch_Site r = Some sel -> class r = Some c ->
     c = 0%Z \/ c = 1%Z) ->
  pie_slices (update_pie df sel)
  = (if decide (0 < length (site_outcome sel 0 df))
     then [(LStr "Failure", length (site_outcome sel 0 df))] else [])
    ++ (if decide (0 < length (site_outcome sel 1 df))
        then [(LStr "Success", length (site_outcome sel 1 df))] else []).
Proof.
  intros Hsel Hbin.
  set (f := length (site_outcome sel 0 df)).
  set (s := length (site_outcome sel 1 df)).
  assert (Hkeys : group_keys Z.le class (site_df df sel)
                  = (if decide (0 < f) then [0%Z] else [])
                    ++ (if decide (0 < s) then [1%Z] else [])).
  { apply (StronglySorted_unique Z.le).
    - apply group_keys_sorted; apply _.
    - destruct (decide (0 < f)), (decide (0 < s)); simpl;
        repeat constructor. lia.
    - apply NoDup_Permutation.
      + apply NoDup_group_keys.
      + destruct (decide (0 < f)), (decide (0 < s)); simpl;
          repeat constructor;
          intros Hin; apply list_elem_of_In in Hin; simpl in Hin;
          intuition discriminate.
      + intros c. rewrite outcome_key_present. split.
        * intros Hpos.
          assert (Hc : c = 0%Z \/ c = 1%Z).
          { apply positive_length_elem in Hpos as [r Hr].
            unfold site_outcome in Hr.
            apply list_elem_of_filter in Hr as [[Hs Hc] Hr]. eauto. }
          destruct Hc as [-> | ->]; fold f in Hpos; fold s in Hpos.
          -- rewrite decide_True by exact Hpos. left.
          -- rewrite (decide_True (P := 0 < s)) by exact Hpos.
             apply elem_of_app. right. left.
        * intros Hin. apply elem_of_app in Hin as [Hin|Hin].
          -- destruct (decide (0 < f)); [|inversion Hin].
             apply list_elem_of_singleton in Hin as ->. assumption.
          -- destruct (decide (0 < s)); [|inversion Hin].
             apply list_elem_of_singleton in Hin as ->. assumption. }
  rewrite update_pie_site by exact Hsel. unfold outcome_counts.
  rewrite groupby_count_counted, Hkeys, map_map, map_app.
  destruct (decide (0 < f)), (decide (0 < s)); simpl;
    rewrite ?outcome_counted; reflexivity.
Qed.

Lemma outcome_pie_binary_witness :
  pie_slices (update_pie t4 "A")
  = (if decide (0 < length (site_outcome "A" 0 t4))
     then [(LStr "Failure", length (site_outcome "A" 0 t4))] else [])
    ++ (if decide (0 < length (site_outcome "A" 1 t4))
        then [(LStr "Success", length (site_outcome "A" 1 t4))] else []).
Proof.
  apply outcome_pie_binary; [discriminate|].
  intros r c Hr Hs Hc. apply list_elem_of_In in Hr. simpl in Hr.
  destruct Hr as [<-|[<-|[<-|[<-|[]]]]]; simpl in Hc; injection Hc as <-;
    tauto.
Defined.

(** ** More on the Correlation View *)

Lemma sublist_filter_impl {A} (P Q : A -> Prop) `{forall x, Decision (P x)}
  `{forall x, Decision (Q x)} (l : list A) :
  (forall x, x ∈ l -> P x -> Q x) -> sublist (filter P l) (filter Q l).
Proof.
  induction l as [|x l IH]; intros Himpl; [constructor|].
  assert (IH' : sublist (filter P l) (filter Q l)).
  { apply IH. intros y Hy. apply Himpl. right. exact Hy. }
  rewrite !filter_cons. pose proof (Himpl x ltac:(left)) as Hx.
  repeat case_decide; try tauto.
  - constructor. exact IH'.
  - apply sublist_cons. exact IH'.
Qed.

Lemma num_leb_trans_l (a b c : Number) :
  same_kind a b -> num_leb a b = true -> num_leb b c = true ->
  num_leb a c = true.
Proof.
  intros Hk Hab Hbc.
  pose proof (num_leb_float _ _ Hab) as Fab.
  pose proof (num_leb_float _ _ Hbc) as Fbc.
  destruct a as [x|p], b as [y|q], c as [z|s]; simpl in *; try tauto;
    try (apply Qle_bool_iff; eapply Qle_trans; eassumption).
  apply Z.leb_le. apply Z.leb_le in Hab, Hbc. lia.
Qed.

Lemma num_leb_trans_r (a b c : Number) :
  same_kind b c -> num_leb a b = true -> num_leb b c = true ->
  num_leb a c = true.
Proof.
  intros Hk Hab Hbc.
  pose proof (num_leb_float _ _ Hab) as Fab.
  pose proof (num_leb_float _ _ Hbc) as Fbc.
  destruct a as [x|p], b as [y|q], c as [z|s]; simpl in *; try tauto;
    try (apply Qle_bool_iff; eapply Qle_trans; eassumption).
  apply Z.leb_le. apply Z.leb_le in Hab, Hbc. lia.
Qed.

(** X10: the Correlation View only ever narrows.  Its frame holds records
    of the table, in table order; the frame of a site is part of the frame
    of ALL for the same range; and a range inside another one, the two
    lower bounds being of one kind (both integers or both floats) and the
    two upper bounds too, gives part of what the wider range gives. *)
Theorem filtered_narrows (df : DataFrame) (sel : string) :
  (forall lo hi, sublist (filtered df sel (lo, hi)) df) /\
  (forall lo hi,
     sublist (filtered df sel (lo, hi)) (filtered df "ALL" (lo, hi))) /\
  (forall lo hi lo' hi' : Number,
     same_kind lo' lo -> same_kind hi hi' ->
     num_leb lo' lo = true -> num_leb hi hi' = true ->
     sublist (filtered df sel (Some lo, Some hi))
             (filtered df sel (Some lo', Some hi'))).
Proof.
  split; [|split].
  - intros lo hi. rewrite filtered_as_filter. apply sublist_filter.
  - intros lo hi. rewrite !filtered_as_filter.
    apply sublist_filter_impl. unfold kept. tauto.
  - intros lo hi lo' hi' Hklo Hkhi Hlo Hhi. rewrite !filtered_as_filter.
    apply sublist_filter_impl. intros r _. unfold kept.
    destruct (Payload_Mass r) as [p|]; simpl; [|tauto].
    intros (H1 & H2 & H3).
    split; [exact (num_leb_trans_l _ _ _ Hklo Hlo H1)|].
    split; [exact (num_leb_trans_r _ _ _ Hkhi H2 Hhi) | exact H3].
Qed.

Lemma filtered_narrows_witness :
  sublist (filtered t4 "B" (Some (Float (1000 # 1)), Some (Float (4000 # 1))))
          (filtered t4 "B" (Some (Float (0 # 1)), Some (Float (6000 # 1)))).
Proof.
  apply (proj2 (proj2 (filtered_narrows t4 "B"))); simpl; reflexivity.
Defined.

(** X11: the filters of the Correlation View compose.  Filtering again
    with the same controls changes nothing; two ranges can be applied in
    either order; and for a site other than ALL, filtering by site and
    range at once is the range filter on the site's records, and also the
    site's records of the range-filtered table. *)
Theorem filtered_composes (df : DataFrame) (sel : string)
  (lo hi lo' hi' : option Number) :
  filtered (filtered df sel (lo, hi)) sel (lo, hi) = filtered df sel (lo, hi) /\
  filtered (filtered df sel (lo, hi)) sel (lo', hi')
    = filtered (filtered df sel (lo', hi')) sel (lo, hi) /\
  (sel <> "ALL" ->
   filtered df sel (lo, hi) = filtered (site_df df sel) "ALL" (lo, hi) /\
   filtered df sel (lo, hi) = site_df (filtered df "ALL" (lo, hi)) sel).
Proof.
  rewrite !filtered_as_filter. split; [|split].
  - apply filter_all. intros r Hr. apply list_elem_of_filter in Hr. tauto.
  - rewrite !list_filter_filter. apply list_filter_iff. intros r. tauto.
  - intros Hsel. rewrite !site_df_as_filter.
    rewrite !list_filter_filter.
    split; apply list_filter_iff; intros r; unfold kept; tauto.
Qed.

Lemma filtered_composes_witness :
  filtered t4 "B" (Some (Float (0 # 1)), Some (Float (4000 # 1)))
    = filtered (site_df t4 "B") "ALL" (Some (Float (0 # 1)), Some (Float (4000 # 1))) /\
  filtered t4 "B" (Some (Float (0 # 1)), Some (Float (4000 # 1)))
    = site_df (filtered t4 "ALL" (Some (Float (0 # 1)), Some (Float (4000 # 1)))) "B".
Proof.
  apply (proj2 (proj2 (filtered_composes t4 "B"
           (Some (Float (0 # 1))) (Some (Float (4000 # 1))) None None))).
  discriminate.
Defined.

(** X12: a range with a NaN bound, or whose upper bound is below its lower
    bound once both are made floats, shows nothing, for every site and
    every table. *)
Theorem filtered_degenerate_range (df : DataFrame) (sel : string) :
  (forall hi, filtered df sel (None, hi) = []) /\
  (forall lo, filtered df sel (lo, None) = []) /\
  (forall lo hi : Number, (float hi < float lo)%Q ->
     filtered df sel (Some lo, Some hi) = []).
Proof.
  split; [|split].
  - intros hi. rewrite filtered_as_filter. apply filter_none.
    intros r _ (H & _). exact H.
  - intros lo. rewrite filtered_as_filter. apply filter_none.
    intros r _ (_ & H & _). destruct (Payload_Mass r); exact H.
  - intros lo hi Hlt. rewrite filtered_as_filter. apply filter_none.
    intros r _. unfold kept.
    destruct (Payload_Mass r) as [p|]; simpl; [|tauto].
    intros (H1 & H2 & _). apply num_leb_float in H1, H2.
    exact (Qlt_not_le _ _ Hlt (Qle_trans _ _ _ H1 H2)).
Qed.

Lemma filtered_degenerate_range_witness :
  filtered t4 "ALL" (Some (Float (4000 # 1)), Some (Float (1000 # 1))) = [].
Proof.
  apply (proj2 (proj2 (filtered_degenerate_range t4 "ALL"))). reflexivity.
Defined.

(** The payload test of the Correlation View on one record. *)
Lemma in_range_true (lo hi : option Number) (r : Row) :
  ge_scalar (Payload_Mass r) lo && le_scalar (Payload_Mass r) hi = true <->
  num_le lo (Payload_Mass r) /\ num_le (Payload_Mass r) hi.
Proof. rewrite andb_true_iff, ge_scalar_true, le_scalar_true. tauto. Qed.

(** X13: on a loaded table with no site literally named ALL, the frame of
    the ALL view is split by the sites of the drop-down: its number of
    records is the sum of the numbers of records of the frames of the
    sites, for the same range. *)
Theorem filtered_partition_by_site (raw : DataFrame) (lo hi : option Number) :
  "ALL" ∉ launch_sites (cleanup raw) ->
  length (filtered (cleanup raw) "ALL" (lo, hi))
  = sum_list (map (fun s => length (filtered (cleanup raw) s (lo, hi)))
                  (launch_sites (cleanup raw))).
Proof.
  intros Hall.
  set (df := cleanup raw) in *.
  set (inr := fun r : Row =>
         ge_scalar (Payload_Mass r) lo && le_scalar (Payload_Mass r) hi).
  assert (Hmap : map (fun s => length (filtered df s (lo, hi))) (launch_sites df)
                 = map (fun s => counted Launch_Site inr s df) (launch_sites df)).
  { apply map_ext_in. intros s Hs. apply list_elem_of_In in Hs.
    assert (s <> "ALL") by (intros ->; exact (Hall Hs)).
    rewrite filtered_as_filter. unfold counted. f_equal.
    apply list_filter_iff. intros r. unfold inr, kept.
    rewrite in_range_true. tauto. }
  rewrite Hmap.
  change (launch_sites df) with (group_keys str_le Launch_Site df).
  rewrite sum_counted by apply NoDup_group_keys.
  rewrite filtered_as_filter. f_equal. apply filter_ext_elem.
  intros r Hr. unfold counted_in, kept, inr. rewrite in_range_true.
  split; [|tauto]. intros (H1 & H2 & _). split; [|tauto].
  pose proof Hr as Hr'. apply elem_of_cleanup in Hr' as [_ ([s Hs] & _)].
  exists s. split; [exact Hs|]. apply elem_of_group_keys. eauto.
Qed.

Lemma filtered_partition_by_site_witness :
  length (filtered (cleanup t4) "ALL" (Some (Float (0 # 1)), Some (Float (4000 # 1))))
  = sum_list
      (map (fun s => length (filtered (cleanup t4) s
                               (Some (Float (0 # 1)), Some (Float (4000 # 1)))))
           (launch_sites (cleanup t4))).
Proof.
  apply filtered_partition_by_site.
  vm_compute. intros Hin. apply list_elem_of_In in Hin. simpl in Hin.
  intuition discriminate.
Defined.

(** ** The slider label *)

Lemma commas_rev_induction (P : list ascii -> Prop) :
  (forall l, length l <= 3 -> P l) ->
  (forall a b c d l, P (d :: l) -> P (a :: b :: c :: d :: l)) ->
  forall l, P l.
Proof.
  intros Hshort Hstep l.
  assert (H : forall n l, length l <= n -> P l); [|apply (H (length l)); lia].
  clear l. induction n as [|n IH]; intros l Hlen.
  - apply Hshort. lia.
  - destruct l as [|a [|b [|c [|d l]]]]; try (apply Hshort; simpl; lia).
    apply Hstep, IH. simpl in *. lia.
Qed.

Lemma commas_rev_short (l : list ascii) : length l <= 3 -> commas_rev l = l.
Proof.
  destruct l as [|a [|b [|c [|d l]]]]; simpl; try reflexivity. lia.
Qed.

Lemma commas_rev_step (a b c d : ascii) (l : list ascii) :
  commas_rev (a :: b :: c :: d :: l)
    = a :: b :: c :: ","%char :: commas_rev (d :: l).
Proof. reflexivity. Qed.

Lemma strip_commas_rev (l : list ascii) :
  Forall (fun c => c <> ","%char) l ->
  filter (fun c => c <> ","%char) (commas_rev l) = l.
Proof.
  induction l as [l Hlen | a b c d l IH] using commas_rev_induction;
    intros Hall.
  - rewrite commas_rev_short by exact Hlen. apply filter_all.
    apply Forall_forall, Hall.
  - rewrite commas_rev_step.
    inversion Hall as [|? ? Ha Hall1]; subst.
    inversion Hall1 as [|? ? Hb Hall2]; subst.
    inversion Hall2 as [|? ? Hc Hall3]; subst.
    rewrite !filter_cons.
    rewrite (decide_True (P := a <> ","%char)) by exact Ha.
    rewrite (decide_True (P := b <> ","%char)) by exact Hb.
    rewrite (decide_True (P := c <> ","%char)) by exact Hc.
    rewrite decide_False by tauto.
    rewrite IH by exact Hall3. reflexivity.
Qed.

Lemma commas_rev_shape (l : list ascii) (i : nat) :
  Forall (fun c => c <> ","%char) l ->
  i < length (commas_rev l) ->
  (commas_rev l !! i = Some ","%char <-> i mod 4 = 3).
Proof.
  revert i.
  induction l as [l Hlen | a b c d l IH] using commas_rev_induction;
    intros i Hall Hi.
  - rewrite commas_rev_short in * by exact Hlen. split.
    + intros Hc. apply list_elem_of_lookup_2 in Hc.
      rewrite Forall_forall in Hall. destruct (Hall _ Hc). reflexivity.
    + intros Hmod. rewrite Nat.mod_small in Hmod by lia. lia.
  - rewrite commas_rev_step in *.
    inversion Hall as [|? ? Ha Hall1]; subst.
    inversion Hall1 as [|? ? Hb Hall2]; subst.
    inversion Hall2 as [|? ? Hc Hall3]; subst.
    destruct i as [|[|[|[|i]]]].
    + simpl. split; [intros [= ->]; tauto | discriminate].
    + simpl. split; [intros [= ->]; tauto | discriminate].
    + simpl. split; [intros [= ->]; tauto | discriminate].
    + simpl. split; reflexivity.
    + change ((a :: b :: c :: ","%char :: commas_rev (d :: l))
                !! S (S (S (S i))))
        with (commas_rev (d :: l) !! i).
      cbn [length] in Hi. rewrite (IH i Hall3) by lia.
      replace (S (S (S (S i)))) with (i + 1 * 4) by lia.
      rewrite Nat.Div0.mod_add. reflexivity.
Qed.

Lemma digits_no_comma (d : Decimal.uint) :
  Forall (fun c => c <> ","%char)
         (list_ascii_of_string (NilEmpty.string_of_uint d)).
Proof.
  induction d; simpl; constructor; try discriminate; assumption.
Qed.

Lemma decimal_no_comma (n : N) :
  Forall (fun c => c <> ","%char) (list_ascii_of_string (decimal n)).
Proof.
  unfold decimal, NilZero.string_of_uint.
  destruct (N.to_uint n) eqn:E; rewrite <- ?E; try apply digits_no_comma.
  simpl. constructor; [discriminate|constructor].
Qed.

Lemma strip_commas_thousands (s : string) :
  Forall (fun c => c <> ","%char) (list_ascii_of_string s) ->
  strip_commas (thousands s) = s.
Proof.
  intros Hall. unfold strip_commas, thousands.
  rewrite list_ascii_of_string_of_list_ascii, filter_reverse.
  rewrite strip_commas_rev by (apply Forall_reverse, Hall).
  rewrite reverse_involutive. apply string_of_list_ascii_of_string.
Qed.

(** The rounding of the format: the result is within one half of the
    value, a value halfway between two integers goes to the even one, and
    an integer is left as it is. *)
Lemma round_half_even_nearest (q : Q) :
  (q - (1 # 2) <= inject_Z (round_half_even q))%Q /\
  (inject_Z (round_half_even q) <= q + (1 # 2))%Q /\
  ((inject_Z (round_half_even q) - q == 1 # 2)%Q \/
   (q - inject_Z (round_half_even q) == 1 # 2)%Q ->
   Z.even (round_half_even q) = true) /\
  (forall z, round_half_even (inject_Z z) = z).
Proof.
  split; [|split; [|split]].
  4:{ intros z. unfold round_half_even. simpl.
      rewrite Z.div_1_r, Z.mod_1_r. reflexivity. }
  all: destruct q as [n d]; unfold round_half_even; simpl Qnum; simpl Qden;
    pose proof (Z.div_mod n (Z.pos d) ltac:(lia)) as Hdm;
    pose proof (Z.mod_pos_bound n (Z.pos d) ltac:(lia)) as Hr;
    set (fl := (n / Z.pos d)%Z) in *; set (r := (n mod Z.pos d)%Z) in *;
    unfold Qle, Qeq, Qminus, Qplus, Qopp, inject_Z; simpl Qnum; simpl Qden;
    destruct (Z.compare_spec (2 * r) (Z.pos d)) as [He|Hl|Hg];
    try destruct (Z.even fl) eqn:Hev;
    rewrite ?Z.even_add, ?Hev; simpl; try nia.
Qed.


Lemma N_to_uint_nonnil (n : N) : N.to_uint n <> Decimal.Nil.
Proof.
  destruct n as [|p]; simpl; [discriminate|].
  apply DecimalPos.Unsigned.to_uint_nonnil.
Qed.

Lemma decimal_reads_back (n : N) :
  option_map N.of_uint (NilZero.uint_of_string (decimal n)) = Some n.
Proof.
  unfold decimal. rewrite NilZero.usu by apply N_to_uint_nonnil.
  simpl. f_equal. apply DecimalN.Unsigned.of_to.
Qed.

Lemma round_half_even_nonneg (q : Q) :
  (0 <= q)%Q -> (0 <= round_half_even q)%Z.
Proof.
  destruct q as [n d]. unfold Qle, round_half_even. simpl. intros Hn.
  assert (0 <= n / Z.pos d)%Z by (apply Z.div_pos; lia).
  destruct (2 * (n mod Z.pos d) ?= Z.pos d)%Z; [|lia|lia].
  destruct (Z.even (n / Z.pos d)); lia.
Qed.

(** X15: the number the label prints for a finite positive value, an
    integer or a float.  The value is made a float first; the text without
    its commas is the decimal writing of that float rounded to the nearest
    integer, a tie going to the even one, and it reads back as that
    integer; and counting from the right, a character of the text is a
    comma exactly at the positions 3, 7, 11, ... *)
Theorem format_comma_0f_digits (n : Number) :
  (0 < float n)%Q ->
  strip_commas (format_comma_0f (Some n))
    = decimal (Z.to_N (round_half_even (float n))) /\
  option_map N.of_uint
    (NilZero.uint_of_string (strip_commas (format_comma_0f (Some n))))
    = Some (Z.to_N (round_half_even (float n))) /\
  (float n - (1 # 2) <= inject_Z (round_half_even (float n)))%Q /\
  (inject_Z (round_half_even (float n)) <= float n + (1 # 2))%Q /\
  (forall i,
     i < length (list_ascii_of_string (format_comma_0f (Some n))) ->
     (reverse (list_ascii_of_string (format_comma_0f (Some n))) !! i
        = Some ","%char
      <-> i mod 4 = 3)).
Proof.
  intros Hpos. pose proof (Qlt_le_weak _ _ Hpos) as Hq.
  assert (Hfmt : format_comma_0f (Some n)
                 = thousands (decimal (Z.to_N (round_half_even (float n))))).
  { unfold format_comma_0f.
    replace (Qnum (float n) <? 0)%Z with false
      by (symmetry; apply Z.ltb_ge; destruct (float n); unfold Qle in Hq;
          simpl in *; lia).
    pose proof (round_half_even_nonneg (float n) Hq).
    replace (Z.abs_N (round_half_even (float n)))
      with (Z.to_N (round_half_even (float n)))
      by (destruct (round_half_even (float n)); simpl; try reflexivity; lia).
    reflexivity. }
  rewrite Hfmt.
  rewrite strip_commas_thousands by apply decimal_no_comma.
  split; [reflexivity|]. split; [apply decimal_reads_back|].
  split; [apply round_half_even_nearest|].
  split; [apply round_half_even_nearest|].
  intros i. unfold thousands.
  rewrite list_ascii_of_string_of_list_ascii, reverse_involutive.
  rewrite length_reverse.
  apply commas_rev_shape, Forall_reverse, decimal_no_comma.
Qed.

Lemma format_comma_0f_digits_witness :
  strip_commas (format_comma_0f (Some (Int (2 ^ 53 + 1))))
    = decimal (Z.to_N (round_half_even (float (Int (2 ^ 53 + 1))))).
Proof.
  apply (proj1 (format_comma_0f_digits (Int (2 ^ 53 + 1))
                  ltac:(reflexivity))).
Defined.

(** ** The page stays up to date *)

Lemma on_change_up_to_date (df : DataFrame) (p : Page) (c : Change) :
  up_to_date df p -> up_to_date df (on_change df p c).
Proof.
  intros (Htext & Hpie & Hscatter). destruct c as [s|r]; unfold up_to_date;
    simpl; repeat split; assumption.
Qed.

Lemma foldl_on_change_up_to_date (df : DataFrame) (cs : list Change) (p : Page) :
  up_to_date df p -> up_to_date df (foldl (on_change df) p cs).
Proof.
  revert p. induction cs as [|c cs IH]; intros p Hp; simpl; [exact Hp|].
  apply IH, on_change_up_to_date, Hp.
Qed.

Lemma foldl_on_change_controls (df : DataFrame) (cs : list Change) (p : Page) :
  site_dropdown (foldl (on_change df) p cs) = last_site (site_dropdown p) cs /\
  payload_slider (foldl (on_change df) p cs)
    = last_range (payload_slider p) cs.
Proof.
  revert p. induction cs as [|c cs IH]; intros p; simpl; [tauto|].
  destruct (IH (on_change df p c)) as [Hs Hr]. rewrite Hs, Hr.
  destruct c; simpl; tauto.
Qed.

(** X16: whatever changes the user makes, in whatever order, the page shows
    the label, the pie and the scatter of the current values of the two
    controls: each control holds the last value given to it (ALL and the
    whole span to start with), and the three outputs are what the callbacks
    compute from those values and the table.  In particular two sessions
    that end on the same control values show the same page. *)
Theorem session_up_to_date (df : DataFrame) (cs : list Change) :
  site_dropdown (session df cs) = last_site "ALL" cs /\
  payload_slider (session df cs)
    = last_range (payload_min df, payload_max df) cs /\
  up_to_date df (session df cs) /\
  (forall cs',
     last_site "ALL" cs' = last_site "ALL" cs ->
     last_range (payload_min df, payload_max df) cs'
       = last_range (payload_min df, payload_max df) cs ->
     session df cs' = session df cs).
Proof.
  assert (Hgen : forall cs,
            site_dropdown (session df cs) = last_site "ALL" cs /\
            payload_slider (session df cs)
              = last_range (payload_min df, payload_max df) cs /\
            up_to_date df (session df cs)).
  { intros cs0. unfold session.
    destruct (foldl_on_change_controls df cs0 (initial_call df (layout df)))
      as [Hs Hr].
    split; [exact Hs|]. split; [exact Hr|].
    apply foldl_on_change_up_to_date. unfold up_to_date. simpl. tauto. }
  destruct (Hgen cs) as (Hs & Hr & Hup).
  split; [exact Hs|]. split; [exact Hr|]. split; [exact Hup|].
  intros cs' Hs' Hr'. destruct (Hgen cs') as (Hs2 & Hr2 & Hup2).
  destruct Hup as (H1 & H2 & H3), Hup2 as (H1' & H2' & H3').
  destruct (session df cs) as [s r t pie sc], (session df cs') as [s' r' t' pie' sc'].
  simpl in *. congruence.
Qed.

Lemma session_up_to_date_witness :
  session t4 [ set_payload_slider (Some (Float (0 # 1)), Some (Float (4000 # 1)));
               set_site_dropdown "A"; set_site_dropdown "B" ]
  = session t4 [ set_site_dropdown "B";
                 set_payload_slider (Some (Float (0 # 1)), Some (Float (4000 # 1))) ].
Proof.
  apply (proj2 (proj2 (proj2 (session_up_to_date t4
           [ set_site_dropdown "B";
             set_payload_slider (Some (Float (0 # 1)), Some (Float (4000 # 1))) ]))));
    reflexivity.
Defined.

(** ** Serving many requests *)

Lemma dispatch_run (st : list Store.Object) (spacex_df : nat)
  (df : DataFrame) (rq : Request) :
  st !! spacex_df = Some (Store.ODataFrame df) ->
  exists new, dispatch spacex_df rq st = Some (answer df rq, st ++ new).
Proof.
  intros Hdf. destruct rq as [s|s r]; simpl.
  - apply update_pie_run, Hdf.
  - apply update_scatter_run, Hdf.
Qed.

(** X17: the callbacks can be called any number of times, in any order:
    every call succeeds, every figure is the one its own request gets from
    the table, whatever was asked before, and at the end the store is the
    store of the start followed by new objects, the table still in its
    place. *)
Theorem serve_answers_from_table (st : list Store.Object) (spacex_df : nat)
  (df : DataFrame) (rqs : list Request) :
  st !! spacex_df = Some (Store.ODataFrame df) ->
  exists new,
    serve spacex_df rqs st = Some (map (answer df) rqs, st ++ new) /\
    (st ++ new) !! spacex_df = Some (Store.ODataFrame df).
Proof.
  revert st. induction rqs as [|rq rqs IH]; intros st Hdf.
  - exists []. rewrite app_nil_r. split; [reflexivity | exact Hdf].
  - destruct (dispatch_run st spacex_df df rq Hdf) as [new1 Hrun1].
    destruct (IH (st ++ new1) (lookup_old st new1 _ _ Hdf))
      as (new2 & Hrun2 & Hdf2).
    exists (new1 ++ new2). rewrite app_assoc. split; [|exact Hdf2].
    simpl. unfold Store.bind. rewrite Hrun1, Hrun2. reflexivity.
Qed.

Lemma serve_answers_from_table_witness :
  exists new,
    serve 0 [ scatter_request "B" (Some (Float (0 # 1)), Some (Float (4000 # 1)));
              pie_request "ALL";
              scatter_request "B" (Some (Float (0 # 1)), Some (Float (4000 # 1))) ]
          [Store.ODataFrame t4]
    = Some (map (answer t4)
              [ scatter_request "B" (Some (Float (0 # 1)), Some (Float (4000 # 1)));
                pie_request "ALL";
                scatter_request "B" (Some (Float (0 # 1)), Some (Float (4000 # 1))) ],
            [Store.ODataFrame t4] ++ new) /\
    ([Store.ODataFrame t4] ++ new) !! 0 = Some (Store.ODataFrame t4).
Proof.
  apply (serve_answers_from_table [Store.ODataFrame t4] 0 t4). reflexivity.
Defined.

(** ** The drop-down and the views *)

Lemma outcome_counts_nil (df : DataFrame) (sel : string) :
  outcome_counts df sel = [] <->
  forall r, r ∈ df -> Launch_Site r = Some sel -> class r = None.
Proof.
  unfold outcome_counts. rewrite map_nil_iff.
  rewrite <- (map_nil_iff fst), groupby_count_keys, group_keys_nil.
  rewrite site_df_as_filter. split.
  - intros Hall r Hr Hs. apply Hall. apply list_elem_of_filter. tauto.
  - intros Hall r Hr. apply list_elem_of_filter in Hr as [Hs Hr]. auto.
Qed.

Lemma scatter_traces_nonempty (df : DataFrame) :
  df <> [] -> concat (scatter_traces df) <> [].
Proof.
  intros Hne Hnil.
  destruct (colours_cases df) as [Hsame|(r1 & r2 & H1 & H2 & Hdiff)].
  - rewrite scatter_traces_one_colour in Hnil by exact Hsame. congruence.
  - assert (Hin : exists r, r ∈ concat (scatter_traces df)).
    { destruct (Booster_Version_Category r1) as [b|] eqn:E1.
      - exists r1. apply elem_of_scatter_rows. rewrite E1. eauto.
      - destruct (Booster_Version_Category r2) as [b|] eqn:E2;
          [|congruence].
        exists r2. apply elem_of_scatter_rows. rewrite E2. eauto. }
    destruct Hin as [r Hr]. rewrite Hnil in Hr. inversion Hr.
Qed.

(** X18: every site the drop-down offers has something to show: on a
    loaded table, for each option other than ALL, the pie of that site has
    at least one slice and the scatter of that site over the whole span of
    the slider has at least one point. *)
Theorem dropdown_sites_have_records (raw : DataFrame) (s : string) :
  s ∈ dropdown_options (cleanup raw) ->
  s <> "ALL" ->
  pie_slices (update_pie (cleanup raw) s) <> [] /\
  scatter_points
    (update_scatter (cleanup raw) s
       (payload_min (cleanup raw), payload_max (cleanup raw))) <> [].
Proof.
  intros Hopt Hs.
  apply elem_of_cons in Hopt as [->|Hin]; [congruence|].
  change (launch_sites (cleanup raw))
    with (group_keys str_le Launch_Site (cleanup raw)) in Hin.
  apply elem_of_group_keys in Hin as (r & Hr & Hsite).
  pose proof Hr as Hr'. apply elem_of_cleanup in Hr' as [_ (_ & [c Hc] & Hp)].
  split.
  - rewrite update_pie_site by exact Hs. intros Hnil.
    pose proof (proj1 (outcome_counts_nil _ _) Hnil r Hr Hsite). congruence.
  - unfold scatter_points. rewrite scatter_rows_update_scatter.
    intros Hnil. apply map_nil_iff in Hnil.
    apply scatter_traces_nonempty in Hnil; [exact Hnil|].
    rewrite filtered_as_filter. intros Hempty.
    assert (Hk : r ∈ filter (kept s (payload_min (cleanup raw))
                               (payload_max (cleanup raw))) (cleanup raw)).
    { apply list_elem_of_filter. split; [|exact Hr].
      destruct (bounds_cover _ _ Hr Hp) as [Hlo Hhi]. unfold kept. tauto. }
    rewrite Hempty in Hk. inversion Hk.
Qed.

Lemma dropdown_sites_have_records_witness :
  pie_slices (update_pie (cleanup t4) "B") <> [] /\
  scatter_points
    (update_scatter (cleanup t4) "B"
       (payload_min (cleanup t4), payload_max (cleanup t4))) <> [].
Proof.
  apply dropdown_sites_have_records.
  - vm_compute. right. right. left.
  - discriminate.
Defined.

(** X19: the page can always be brought back to the whole table: after any
    changes, putting the drop-down on ALL and the slider on the observed
    payload bounds makes the frame handed to the scatter plot the whole
    loaded table, in table order and under the title for all sites, as it
    was when the page loaded. *)
Theorem reset_shows_whole_table (raw : DataFrame) (cs : list Change) :
  success_payload_scatter_chart
    (session (cleanup raw)
       (cs ++ [ set_site_dropdown "ALL";
                set_payload_slider (payload_min (cleanup raw),
                                    payload_max (cleanup raw)) ]))
  = Some (px_scatter (cleanup raw)
            "Correlation between Payload and Success (All Sites)") /\
  success_payload_scatter_chart (session (cleanup raw) [])
  = Some (px_scatter (cleanup raw)
            "Correlation between Payload and Success (All Sites)").
Proof.
  assert (Hfull : update_scatter (cleanup raw) "ALL"
                    (payload_min (cleanup raw), payload_max (cleanup raw))
                  = px_scatter (cleanup raw)
                      "Correlation between Payload and Success (All Sites)").
  { unfold update_scatter. f_equal.
    rewrite filtered_as_filter. apply filter_all. intros r Hr.
    pose proof Hr as Hr'. apply elem_of_cleanup in Hr' as [_ (_ & _ & Hp)].
    destruct (bounds_cover _ _ Hr Hp) as [Hlo Hhi]. unfold kept. tauto. }
  split.
  - unfold session. rewrite foldl_app. simpl. rewrite Hfull. reflexivity.
  - unfold session. simpl. rewrite Hfull. reflexivity.
Qed.
